(** * chips-indexer: the DEX order event engine

    A shallow embedding of [kadena_indexer/dex] (utils.py, event_processor.py,
    database.py, main_processor.py) and the properties of the event
    application engine: validation of raw events, scheduling by height and
    kind, the order state computed by PLACE / MATCH / CANCEL, the per-height
    commit and the watermark.

    Conventions of the embedding.
    - Python values that events and documents carry are [PyVal]; a Python
      [float] is an IEEE binary64 number, that is Rocq's primitive [float],
      and the arithmetic of the source is the primitive arithmetic.
    - A MongoDB document (and a Python dict) is a [gmap string PyVal].
    - A Python exception is a [Raise e] result; the methods of the source
      that touch the store run in the monad [M] over the [World], which
      holds the collections, the two write queues of [EventProcessor], a
      schedule of store failures, the log and a journal of the write calls
      sent to the store. *)

From Stdlib Require Import ZArith String Ascii List.
From Stdlib Require Import PrimFloat SpecFloat FloatOps FloatAxioms.
From stdpp Require Import gmap strings list sorting pretty.

Set Warnings "-inexact-float,-register-all".

#[local] Open Scope string_scope.
#[local] Open Scope list_scope.

(* ===================================================================== *)
(** * Python values *)
(* ===================================================================== *)

(** [decimal.Decimal]: sign, coefficient and exponent, or a special value. *)
Inductive Decimal :=
  | DFinite (neg : bool) (coeff : N) (exp : Z)
  | DInfinity (neg : bool)
  | DNaN
  | DsNaN.

(** The values found in event parameters and in stored documents. *)
Inductive PyVal :=
  | PNone
  | PBool (b : bool)
  | PInt (z : Z)
  | PFloat (f : float)
  | PStr (s : string)
  | PDecimal (d : Decimal)
  | PDecimal128 (d : Decimal)
  | PDatetime (t : Z)
  | PDict (items : gmap string PyVal)
  | PList (items : list PyVal).

(** A document of a collection, and a Python dict with string keys. *)
Abbreviation Doc := (gmap string PyVal).

(** The exceptions that the modelled code can meet. [PyMongoError] stands
    for any failure raised by a call to the store. *)
Inductive exn :=
  | ValueError
  | TypeError
  | OverflowError
  | IndexError
  | KeyError
  | PyMongoError.

Inductive res (A : Type) :=
  | Ok (a : A)
  | Raise (e : exn).
Arguments Ok {A} a.
Arguments Raise {A} e.

#[export] Instance res_ret : MRet res := fun _ a => Ok a.
#[export] Instance res_bind : MBind res := fun _ _ k r =>
  match r with
  | Ok a => k a
  | Raise e => Raise e
  end.

(** The two conversions that belong to the Python interpreter and have no
    closed form here: [float(s)] for a string [s] ([None] is ValueError),
    and [str(v)] for a value [v] that is not a string. *)
Class PyInterp := {
  float_of_str : string -> option float;
  py_repr : PyVal -> string
}.

(** [float(n)] for an int: the nearest binary64 number, ties to even;
    OverflowError when that is out of range, which is from
    [2^1024 - 2^970] on (the midpoint above the largest finite float). *)
Definition float_of_int (z : Z) : res float :=
  if (Z.abs z <? 2 ^ 1024 - 2 ^ 970)%Z
  then Ok (SF2Prim (binary_normalize prec emax z 0 false))
  else Raise OverflowError.

(** [float(d)] for a [Decimal]: the nearest binary64 number to
    [coeff * 10^exp] (infinite when out of range); ValueError on a
    signalling NaN. *)
Definition float_of_decimal (d : Decimal) : res float :=
  match d with
  | DFinite neg N0 _ => Ok (if neg then (-0)%float else 0%float)
  | DFinite neg (Npos m) (Zneg k) =>
      Ok (SF2Prim (SFdiv prec emax (S754_finite neg m 0)
                                   (S754_finite false (Pos.pow 10 k) 0)))
  | DFinite neg (Npos m) e =>
      Ok (SF2Prim (binary_normalize prec emax
                     ((if neg then Z.neg m else Z.pos m) * 10 ^ e) 0 false))
  | DInfinity neg => Ok (if neg then neg_infinity else infinity)
  | DNaN => Ok nan
  | DsNaN => Raise ValueError
  end.

(** [bool(v)]: Python truthiness. A bson [Decimal128] and a [datetime]
    define no [__bool__] and are always true. *)
Definition py_bool (v : PyVal) : bool :=
  match v with
  | PNone => false
  | PBool b => b
  | PInt z => negb (Z.eqb z 0)
  | PFloat f => negb (PrimFloat.eqb f 0)
  | PStr s => negb (String.eqb s "")
  | PDecimal (DFinite _ c _) => negb (N.eqb c 0)
  | PDecimal _ => true
  | PDecimal128 _ => true
  | PDatetime _ => true
  | PDict items => negb (bool_decide (items = ∅))
  | PList items => negb (bool_decide (items = []))
  end.

(** [a or b]. *)
Definition py_or (a b : PyVal) : PyVal := if py_bool a then a else b.

Definition replace_char (old new : ascii) : string -> string :=
  fix go (s : string) : string :=
    match s with
    | EmptyString => EmptyString
    | String c s' => String (if Ascii.eqb c old then new else c) (go s')
    end.

Section Utils.
Context {I : PyInterp}.

(** [str(v)]. *)
Definition py_str (v : PyVal) : string :=
  match v with
  | PStr s => s
  | _ => py_repr v
  end.

(* --------------------------------------------------------------------- *)
(** ** utils.py *)
(* --------------------------------------------------------------------- *)

Definition safe_decimal_to_float (value : PyVal) : res float :=
  match value with
  | PDecimal128 d => float_of_decimal d
  | PDecimal d => float_of_decimal d
  | PBool b => float_of_int (Z.b2z b)
  | PInt z => float_of_int z
  | PFloat f => Ok f
  | PStr s =>
      match float_of_str s with
      | Some f => Ok f
      | None => Raise ValueError
      end
  | PNone | PDatetime _ | PDict _ | PList _ => Raise TypeError
  end.

Definition normalize_pair (pair : PyVal) : PyVal :=
  match pair with
  | PStr s => PStr (replace_char "/" "-" s)
  | _ => pair
  end.

Definition extract_timestamp (order_time : PyVal) : PyVal :=
  match order_time with
  | PDict items =>
      match items !! "timep" with
      | Some t => t
      | None => PStr (py_str order_time)
      end
  | PStr _ => order_time
  | _ => PStr (py_str order_time)
  end.

(** The second component of a validator's result. Each constructor is one
    return site of utils.py; [describe] gives the fixed text of its
    message. *)
Inductive Reason :=
  | NotAList (params : PyVal)
  | TooFewParams (kind fields : string) (expected got : nat)
  | EmptyField (what : string)
  | NotPositive (what : string)
  | Negative (what : string)
  | InvalidTypes (e : exn).

Definition describe (r : Reason) : string :=
  (match r with
   | NotAList _ => "Expected params to be a list, got "
   | TooFewParams kind fields n got =>
       "Expected at least " ++ pretty n ++ " parameters for " ++ kind ++ " "
         ++ fields ++ ", got " ++ pretty got
   | EmptyField what => what ++ " cannot be empty"
   | NotPositive what => what ++ " must be positive"
   | Negative what => what ++ " cannot be negative"
   | InvalidTypes _ => "Invalid parameter types: "
   end)%string.

(** [(True, "")] is [Valid]; [(False, message)] is [Invalid reason]. *)
Inductive Verdict :=
  | Valid
  | Invalid (why : Reason).

(** [params[i]] for a list. *)
Definition item (ps : list PyVal) (i : nat) : res PyVal :=
  match ps !! i with
  | Some v => Ok v
  | None => Raise IndexError
  end.

(** [try: ... except (ValueError, TypeError) as e: return False, ...]:
    any other exception leaves the validator. *)
Definition except_value_type (body : res Verdict) : res Verdict :=
  match body with
  | Raise ValueError => Ok (Invalid (InvalidTypes ValueError))
  | Raise TypeError => Ok (Invalid (InvalidTypes TypeError))
  | other => other
  end.

Definition is_empty (s : string) : bool := String.eqb s "".

Definition validate_place_order_params (params : PyVal) : res Verdict :=
  match params with
  | PList ps =>
      if (length ps <? 8)%nat
      then Ok (Invalid (TooFewParams "PLACE_ORDER" "[account, id, amount, price, is_ask, order_time, pair, dollar_value]" 8 (length ps)))
      else except_value_type (
        p0 ← item ps 0;
        let account := py_str p0 in
        p1 ← item ps 1;
        let order_id := py_str p1 in
        p2 ← item ps 2;
        amount ← safe_decimal_to_float p2;
        p3 ← item ps 3;
        price ← safe_decimal_to_float p3;
        p4 ← item ps 4;
        let is_ask := py_bool p4 in
        order_time ← item ps 5;
        p6 ← item ps 6;
        let pair := py_str p6 in
        p7 ← item ps 7;
        dollar_value ← safe_decimal_to_float p7;
        if is_empty account then Ok (Invalid (EmptyField "Account"))
        else if is_empty order_id then Ok (Invalid (EmptyField "Order ID"))
        else if PrimFloat.leb amount 0 then Ok (Invalid (NotPositive "Amount"))
        else if PrimFloat.leb price 0 then Ok (Invalid (NotPositive "Price"))
        else if is_empty pair then Ok (Invalid (EmptyField "Pair"))
        else if PrimFloat.leb dollar_value 0 then Ok (Invalid (NotPositive "Dollar value"))
        else Ok Valid)
  | _ => Ok (Invalid (NotAList params))
  end.

Definition validate_match_order_params (params : PyVal) : res Verdict :=
  match params with
  | PList ps =>
      if (length ps <? 10)%nat
      then Ok (Invalid (TooFewParams "MATCH_ORDER" "[maker, taker, id, amount, price, is_ask, order_time, pair, dollar_value, fee]" 10 (length ps)))
      else except_value_type (
        p0 ← item ps 0;
        let maker := py_str p0 in
        p1 ← item ps 1;
        let taker := py_str p1 in
        p2 ← item ps 2;
        let order_id := py_str p2 in
        p3 ← item ps 3;
        amount ← safe_decimal_to_float p3;
        p4 ← item ps 4;
        price ← safe_decimal_to_float p4;
        p5 ← item ps 5;
        let is_ask := py_bool p5 in
        order_time ← item ps 6;
        p7 ← item ps 7;
        let pair := py_str p7 in
        p8 ← item ps 8;
        dollar_value ← safe_decimal_to_float p8;
        p9 ← item ps 9;
        fee ← safe_decimal_to_float p9;
        if is_empty maker then Ok (Invalid (EmptyField "Maker account"))
        else if is_empty taker then Ok (Invalid (EmptyField "Taker account"))
        else if is_empty order_id then Ok (Invalid (EmptyField "Order ID"))
        else if PrimFloat.leb amount 0 then Ok (Invalid (NotPositive "Amount"))
        else if PrimFloat.leb price 0 then Ok (Invalid (NotPositive "Price"))
        else if is_empty pair then Ok (Invalid (EmptyField "Pair"))
        else if PrimFloat.leb dollar_value 0 then Ok (Invalid (NotPositive "Dollar value"))
        else if PrimFloat.ltb fee 0 then Ok (Invalid (Negative "Fee"))
        else Ok Valid)
  | _ => Ok (Invalid (NotAList params))
  end.

Definition validate_cancel_order_params (params : PyVal) : res Verdict :=
  match params with
  | PList ps =>
      if (length ps <? 4)%nat
      then Ok (Invalid (TooFewParams "CANCEL_ORDER" "[account, id, token_returned, amount]" 4 (length ps)))
      else except_value_type (
        p0 ← item ps 0;
        let account := py_str p0 in
        p1 ← item ps 1;
        let order_id := py_str p1 in
        p2 ← item ps 2;
        let token_returned := py_str p2 in
        p3 ← item ps 3;
        amount ← safe_decimal_to_float p3;
        if is_empty account then Ok (Invalid (EmptyField "Account"))
        else if is_empty order_id then Ok (Invalid (EmptyField "Order ID"))
        else if is_empty token_returned then Ok (Invalid (EmptyField "Token returned"))
        else if PrimFloat.ltb amount 0 then Ok (Invalid (Negative "Amount"))
        else Ok Valid)
  | _ => Ok (Invalid (NotAList params))
  end.

End Utils.

(* ===================================================================== *)
(** * The store and the processor state *)
(* ===================================================================== *)

(** A query filter: every filter of the source is a conjunction of
    equalities between a field and a string. *)
Definition Filter := list (string * string).

Definition field_is (d : Doc) (k s : string) : bool :=
  match d !! k with
  | Some (PStr t) => String.eqb t s
  | _ => false
  end.

Definition matches (flt : Filter) (d : Doc) : bool :=
  forallb (fun ks => field_is d ks.1 ks.2) flt.

(** The update documents of the source. *)
Inductive Update :=
  | SetOnInsert (fields : Doc)
  | SetFields (fields : Doc).

(** An entry of [self.order_updates]. *)
Record QueuedUpdate := {
  q_filter : Filter;
  q_update : Update;
  q_upsert : bool
}.

(** The raw events of the source collections, as the spec's RawEvent; the
    processor adds [event_type]. *)
Inductive EventType := PLACE_ORDER | MATCH_ORDER | CANCEL_ORDER.

Record RawEvent := {
  ev_height : option Z;
  ev_params : option PyVal;
  ev_blockTime : option PyVal;
  ev_txId : option PyVal;
  ev_type : option EventType
}.

(** The write calls sent to the store, each with whether it succeeded. *)
Inductive StoreCall :=
  | CallUpdateOne (flt : Filter) (upd : Update) (upsert : bool)
  | CallInsertMany (docs : list Doc).

(** Errors and warnings of the log (info and debug lines are left out). *)
Inductive LogEntry :=
  | ErrInvalidEvent (kind : EventType) (height : Z) (why : Reason)
  | ErrOrderNotFound (kind : EventType) (order_id : string)
  | ErrAccountMismatch (order_id : string) (owner : option PyVal) (account : string)
  | ErrProcessing (kind : EventType) (e : exn)
  | ErrBatch (e : exn)
  | ErrConnect (e : exn)
  | ErrLastHeightRead (e : exn)
  | ErrLastHeightWrite (e : exn)
  | ErrFetch (e : exn)
  | ErrIndexes (e : exn)
  | ErrStatistics (e : exn)
  | ErrRun (e : exn)
  | WarnNoOrderFound (flt : Filter).

Record World := {
  orders_collection : list Doc;
  trades_collection : list Doc;
  place_order_events : list RawEvent;
  match_order_events : list RawEvent;
  cancel_order_events : list RawEvent;
  order_updates : list QueuedUpdate;
  trade_inserts : list Doc;
  faults : list bool;
  clock : list Z;
  journal : list (StoreCall * bool);
  log : list LogEntry
}.

Definition set_orders (f : list Doc -> list Doc) (w : World) : World :=
  {| orders_collection := f (orders_collection w);
     trades_collection := trades_collection w;
     place_order_events := place_order_events w;
     match_order_events := match_order_events w;
     cancel_order_events := cancel_order_events w;
     order_updates := order_updates w;
     trade_inserts := trade_inserts w;
     faults := faults w; clock := clock w;
     journal := journal w; log := log w |}.

Definition set_trades (f : list Doc -> list Doc) (w : World) : World :=
  {| orders_collection := orders_collection w;
     trades_collection := f (trades_collection w);
     place_order_events := place_order_events w;
     match_order_events := match_order_events w;
     cancel_order_events := cancel_order_events w;
     order_updates := order_updates w;
     trade_inserts := trade_inserts w;
     faults := faults w; clock := clock w;
     journal := journal w; log := log w |}.

Definition set_order_updates (f : list QueuedUpdate -> list QueuedUpdate) (w : World) : World :=
  {| orders_collection := orders_collection w;
     trades_collection := trades_collection w;
     place_order_events := place_order_events w;
     match_order_events := match_order_events w;
     cancel_order_events := cancel_order_events w;
     order_updates := f (order_updates w);
     trade_inserts := trade_inserts w;
     faults := faults w; clock := clock w;
     journal := journal w; log := log w |}.

Definition set_trade_inserts (f : list Doc -> list Doc) (w : World) : World :=
  {| orders_collection := orders_collection w;
     trades_collection := trades_collection w;
     place_order_events := place_order_events w;
     match_order_events := match_order_events w;
     cancel_order_events := cancel_order_events w;
     order_updates := order_updates w;
     trade_inserts := f (trade_inserts w);
     faults := faults w; clock := clock w;
     journal := journal w; log := log w |}.

Definition set_faults (f : list bool -> list bool) (w : World) : World :=
  {| orders_collection := orders_collection w;
     trades_collection := trades_collection w;
     place_order_events := place_order_events w;
     match_order_events := match_order_events w;
     cancel_order_events := cancel_order_events w;
     order_updates := order_updates w;
     trade_inserts := trade_inserts w;
     faults := f (faults w); clock := clock w;
     journal := journal w; log := log w |}.

Definition set_clock (f : list Z -> list Z) (w : World) : World :=
  {| orders_collection := orders_collection w;
     trades_collection := trades_collection w;
     place_order_events := place_order_events w;
     match_order_events := match_order_events w;
     cancel_order_events := cancel_order_events w;
     order_updates := order_updates w;
     trade_inserts := trade_inserts w;
     faults := faults w; clock := f (clock w);
     journal := journal w; log := log w |}.

Definition set_journal (f : list (StoreCall * bool) -> list (StoreCall * bool)) (w : World) : World :=
  {| orders_collection := orders_collection w;
     trades_collection := trades_collection w;
     place_order_events := place_order_events w;
     match_order_events := match_order_events w;
     cancel_order_events := cancel_order_events w;
     order_updates := order_updates w;
     trade_inserts := trade_inserts w;
     faults := faults w; clock := clock w;
     journal := f (journal w); log := log w |}.

Definition set_log (f : list LogEntry -> list LogEntry) (w : World) : World :=
  {| orders_collection := orders_collection w;
     trades_collection := trades_collection w;
     place_order_events := place_order_events w;
     match_order_events := match_order_events w;
     cancel_order_events := cancel_order_events w;
     order_updates := order_updates w;
     trade_inserts := trade_inserts w;
     faults := faults w; clock := clock w;
     journal := journal w; log := f (log w) |}.

(** ** The monad of the processor's methods *)

Definition M (A : Type) : Type := World -> res A * World.

#[export] Instance M_ret : MRet M := fun _ a w => (Ok a, w).
#[export] Instance M_bind : MBind M := fun _ _ k m w =>
  match m w with
  | (Ok a, w') => k a w'
  | (Raise e, w') => (Raise e, w')
  end.

Definition raise {A} (e : exn) : M A := fun w => (Raise e, w).
Definition lift {A} (r : res A) : M A := fun w => (r, w).
Definition modify (f : World -> World) : M unit := fun w => (Ok tt, f w).
Definition gets {A} (f : World -> A) : M A := fun w => (Ok (f w), w).

(** [try: body except Exception as e: handler e]. *)
Definition try_except {A} (body : M A) (handler : exn -> M A) : M A := fun w =>
  match body w with
  | (Raise e, w') => handler e w'
  | r => r
  end.

(** [for x in l: body x]. *)
Fixpoint for_each {A} (body : A -> M unit) (l : list A) : M unit :=
  match l with
  | [] => mret tt
  | x :: l' => body x ≫= fun _ => for_each body l'
  end.

Definition logger (entry : LogEntry) : M unit :=
  modify (set_log (fun l => l ++ [entry])).

(** The order that the store returns for an id. *)
Definition the_order (w : World) (order_id : string) : option Doc :=
  List.find (matches [("orderId", order_id)]) (orders_collection w).

(** No failure is scheduled and both write queues are empty, as at the
    start of a height. *)
Definition quiet (w : World) : Prop :=
  faults w = [] /\ order_updates w = [] /\ trade_inserts w = [].

(** One round trip to the store: it raises when the failure schedule says
    so. An exhausted schedule means no further failure. *)
Definition store_call : M unit := fun w =>
  match faults w with
  | true :: fs => (Raise PyMongoError, set_faults (fun _ => fs) w)
  | false :: fs => (Ok tt, set_faults (fun _ => fs) w)
  | [] => (Ok tt, w)
  end.

(** A write call: the journal records it and whether it went through. *)
Definition write_call (c : StoreCall) : M unit :=
  try_except
    (store_call ≫= fun _ => modify (set_journal (fun j => j ++ [(c, true)])))
    (fun e => modify (set_journal (fun j => j ++ [(c, false)])) ≫= fun _ => raise e).

(** ** The collection operations the source uses *)

Fixpoint update_first (flt : Filter) (f : Doc -> Doc) (docs : list Doc) : option (list Doc) :=
  match docs with
  | [] => None
  | d :: ds =>
      if matches flt d then Some (f d :: ds)
      else cons d <$> update_first flt f ds
  end.

Definition filter_doc (flt : Filter) : Doc :=
  list_to_map (map (fun ks => (ks.1, PStr ks.2)) flt).

Definition update_fields (upd : Update) : Doc :=
  match upd with
  | SetOnInsert fields => fields
  | SetFields fields => fields
  end.

(** What [update_one] does to a matched document: [$set] overwrites the
    listed fields, [$setOnInsert] changes nothing. *)
Definition on_match (upd : Update) (d : Doc) : Doc :=
  match upd with
  | SetOnInsert _ => d
  | SetFields fields => fields ∪ d
  end.

(** The collection after [update_one(flt, upd, upsert)] and its
    [matched_count]. With no match and [upsert], the new document holds the
    filter's fields and the update's (the [_id] that the store assigns to
    it is not modelled: no path of the source reads it). *)
Definition apply_update (flt : Filter) (upd : Update) (upsert : bool)
    (docs : list Doc) : list Doc * nat :=
  match update_first flt (on_match upd) docs with
  | Some docs' => (docs', 1)
  | None =>
      (if upsert then docs ++ [update_fields upd ∪ filter_doc flt] else docs, 0)
  end.

(** [self.db.orders_collection.find_one(flt)] *)
Definition find_one (flt : Filter) : M (option Doc) :=
  store_call ≫= fun _ => gets (fun w => List.find (matches flt) (orders_collection w)).

(** [self.db.orders_collection.update_one(flt, upd, upsert=upsert)],
    returning [matched_count]. *)
Definition update_one (flt : Filter) (upd : Update) (upsert : bool) : M nat :=
  write_call (CallUpdateOne flt upd upsert) ≫= fun _ =>
  gets (fun w => apply_update flt upd upsert (orders_collection w)) ≫= fun r =>
  modify (set_orders (fun _ => r.1)) ≫= fun _ =>
  mret r.2.

(** [self.db.trades_collection.insert_many(docs)] *)
Definition insert_many (docs : list Doc) : M unit :=
  write_call (CallInsertMany docs) ≫= fun _ =>
  modify (set_trades (fun t => t ++ docs)).

(** [datetime.utcnow()]: the next reading of the clock. *)
Definition utcnow : M PyVal := fun w =>
  match clock w with
  | t :: ts => (Ok (PDatetime t), set_clock (fun _ => ts) w)
  | [] => (Ok (PDatetime 0), w)
  end.

(* ===================================================================== *)
(** * event_processor.py *)
(* ===================================================================== *)

(** [v[i]] for an int [i >= 0]. *)
Definition getitem (v : PyVal) (i : nat) : res PyVal :=
  match v with
  | PList ps => item ps i
  | PStr s =>
      match String.get i s with
      | Some c => Ok (PStr (String c EmptyString))
      | None => Raise IndexError
      end
  | PDict _ => Raise KeyError
  | _ => Raise TypeError
  end.

(** [d.get(k, dflt)] *)
Definition get (d : Doc) (k : string) (dflt : PyVal) : PyVal :=
  default dflt (d !! k).

(** The float that a stored value contributes to float arithmetic
    ([v + x], [v - x], [x / v] with [x] a float): ints and bools are
    converted, anything else is a TypeError. *)
Definition as_number (v : PyVal) : res float :=
  match v with
  | PFloat f => Ok f
  | PInt z => float_of_int z
  | PBool b => float_of_int (Z.b2z b)
  | _ => Raise TypeError
  end.

(** [v + 1] for the fill counter. A [decimal.Decimal] is never read back
    from the store (the driver returns [Decimal128], which has no
    arithmetic), so only ints, bools and floats add. *)
Definition add_one (v : PyVal) : res PyVal :=
  match v with
  | PInt z => Ok (PInt (z + 1))
  | PBool b => Ok (PInt (Z.b2z b + 1))
  | PFloat f => Ok (PFloat (f + 1)%float)
  | _ => Raise TypeError
  end.

(** [v > 0] *)
Definition gt_zero (v : PyVal) : res bool :=
  match v with
  | PInt z => Ok (0 <? z)%Z
  | PBool b => Ok b
  | PFloat f => Ok (0 <? f)%float
  | _ => Raise TypeError
  end.

(** [v != s] for a stored value (or a missing one, [None]) and a str. *)
Definition ne_str (v : option PyVal) (s : string) : bool :=
  match v with
  | Some (PStr t) => negb (String.eqb t s)
  | _ => true
  end.

Definition order_type (is_ask : bool) : PyVal :=
  PStr (if is_ask then "ask" else "bid").

Definition queue_order_update (u : QueuedUpdate) : M unit :=
  modify (set_order_updates (fun q => q ++ [u])).

Definition queue_trade_insert (t : Doc) : M unit :=
  modify (set_trade_inserts (fun q => q ++ [t])).

Section EventProcessor.
Context {I : PyInterp}.

(** The body of the [try] of [process_place_order_event] up to the entry
    it appends to [self.order_updates]. *)
Definition place_order_update (event_params : PyVal) (height : Z)
    (block_time tx_id : PyVal) : res QueuedUpdate :=
  p0 ← getitem event_params 0;
  let account := py_str p0 in
  p1 ← getitem event_params 1;
  let order_id := py_str p1 in
  p2 ← getitem event_params 2;
  amount ← safe_decimal_to_float p2;
  p3 ← getitem event_params 3;
  price ← safe_decimal_to_float p3;
  p4 ← getitem event_params 4;
  let is_ask := py_bool p4 in
  order_time ← getitem event_params 5;
  p6 ← getitem event_params 6;
  let pair := normalize_pair (PStr (py_str p6)) in
  p7 ← getitem event_params 7;
  dollar_value ← safe_decimal_to_float p7;
  let timestamp := extract_timestamp order_time in
  let order_data : Doc := list_to_map [
    ("orderId", PStr order_id);
    ("account", PStr account);
    ("pair", pair);
    ("originalAmount", PFloat amount);
    ("amount", PFloat amount);
    ("filledAmount", PFloat 0);
    ("price", PFloat price);
    ("isAsk", PBool is_ask);
    ("orderType", order_type is_ask);
    ("orderTime", timestamp);
    ("height", PInt height);
    ("blockTime", block_time);
    ("txId", tx_id);
    ("status", PStr "active");
    ("fillPercentage", PFloat 0);
    ("averageFillPrice", PFloat 0);
    ("totalFillValue", PFloat 0);
    ("totalDollarValue", PFloat dollar_value);
    ("totalFees", PFloat 0);
    ("numberOfFills", PInt 0);
    ("lastFillTime", PNone);
    ("lastFillHeight", PNone);
    ("createdAt", py_or block_time timestamp);
    ("lastUpdated", PInt height);
    ("cancelledAt", PNone);
    ("cancelReason", PNone);
    ("tokenReturned", PNone);
    ("amountReturned", PNone)
  ] in
  mret {| q_filter := [("orderId", order_id)];
          q_update := SetOnInsert order_data;
          q_upsert := true |}.

Definition process_place_order_event (event_params : PyVal) (height : Z)
    (block_time tx_id : PyVal) : M unit :=
  try_except
    (u ← lift (place_order_update event_params height block_time tx_id);
     queue_order_update u)
    (fun e => logger (ErrProcessing PLACE_ORDER e)).

(** The local variables that [process_match_order_event] reads from the
    event parameters. *)
Record MatchParams := {
  m_maker : string;
  m_taker : string;
  m_order_id : string;
  m_matched_amount : float;
  m_matched_price : float;
  m_is_ask : bool;
  m_order_time : PyVal;
  m_pair : PyVal;
  m_dollar_value : float;
  m_fee : float
}.

Definition match_params (event_params : PyVal) : res MatchParams :=
  p0 ← getitem event_params 0;
  p1 ← getitem event_params 1;
  p2 ← getitem event_params 2;
  p3 ← getitem event_params 3;
  matched_amount ← safe_decimal_to_float p3;
  p4 ← getitem event_params 4;
  matched_price ← safe_decimal_to_float p4;
  p5 ← getitem event_params 5;
  order_time ← getitem event_params 6;
  p7 ← getitem event_params 7;
  p8 ← getitem event_params 8;
  dollar_value ← safe_decimal_to_float p8;
  p9 ← getitem event_params 9;
  fee ← safe_decimal_to_float p9;
  mret {| m_maker := py_str p0;
          m_taker := py_str p1;
          m_order_id := py_str p2;
          m_matched_amount := matched_amount;
          m_matched_price := matched_price;
          m_is_ask := py_bool p5;
          m_order_time := order_time;
          m_pair := normalize_pair (PStr (py_str p7));
          m_dollar_value := dollar_value;
          m_fee := fee |}.

(** "Calculate new values" to "Update order with match information": the
    [$set] document of a MATCH, from the order read from the store. *)
Definition match_order_update (existing_order : Doc) (p : MatchParams)
    (timestamp : PyVal) (height : Z) : res Doc :=
  filled ← as_number (get existing_order "filledAmount" (PFloat 0));
  let new_filled_amount := (filled + m_matched_amount p)%float in
  original ← as_number (get existing_order "originalAmount" (PFloat 0));
  let new_remaining_amount := (original - new_filled_amount)%float in
  new_number_of_fills ← add_one (get existing_order "numberOfFills" (PInt 0));
  current_total_value ← as_number (get existing_order "totalFillValue" (PFloat 0));
  let new_total_value :=
    (current_total_value + m_matched_amount p * m_matched_price p)%float in
  let new_average_fill_price :=
    (if 0 <? new_filled_amount then new_total_value / new_filled_amount else 0)%float in
  current_total_dollar_value ← as_number (get existing_order "totalDollarValue" (PFloat 0));
  let new_total_dollar_value := (current_total_dollar_value + m_dollar_value p)%float in
  current_total_fees ← as_number (get existing_order "totalFees" (PFloat 0));
  let new_total_fees := (current_total_fees + m_fee p)%float in
  original_positive ← gt_zero (get existing_order "originalAmount" (PFloat 0));
  let fill_percentage :=
    (if original_positive : bool then new_filled_amount / original * 100 else 0)%float in
  let '(new_status, new_remaining_amount) :=
    if (new_remaining_amount <=? 0.001)%float then (PStr "filled", 0%float)
    else if (0 <? new_filled_amount)%float then (PStr "partially_filled", new_remaining_amount)
    else (get existing_order "status" (PStr "active"), new_remaining_amount) in
  mret (list_to_map [
    ("amount", PFloat new_remaining_amount);
    ("filledAmount", PFloat new_filled_amount);
    ("fillPercentage", PFloat fill_percentage);
    ("averageFillPrice", PFloat new_average_fill_price);
    ("totalFillValue", PFloat new_total_value);
    ("totalDollarValue", PFloat new_total_dollar_value);
    ("totalFees", PFloat new_total_fees);
    ("numberOfFills", new_number_of_fills);
    ("lastFillTime", timestamp);
    ("lastFillHeight", PInt height);
    ("status", new_status);
    ("lastUpdated", PInt height)
  ] : Doc).

(** "Create trade record" *)
Definition trade_data (p : MatchParams) (timestamp : PyVal) (height : Z)
    (block_time tx_id : PyVal) : Doc :=
  list_to_map [
    ("orderId", PStr (m_order_id p));
    ("pair", m_pair p);
    ("maker", PStr (m_maker p));
    ("taker", PStr (m_taker p));
    ("makerAccount", PStr (m_maker p));
    ("takerAccount", PStr (m_taker p));
    ("amount", PFloat (m_matched_amount p));
    ("price", PFloat (m_matched_price p));
    ("dollarValue", PFloat (m_dollar_value p));
    ("fee", PFloat (m_fee p));
    ("isAsk", PBool (m_is_ask p));
    ("orderType", order_type (m_is_ask p));
    ("tradeTime", timestamp);
    ("height", PInt height);
    ("blockTime", block_time);
    ("txId", tx_id);
    ("tradeValue", PFloat (m_matched_amount p * m_matched_price p)%float);
    ("netValue", PFloat (m_matched_amount p * m_matched_price p - m_fee p)%float);
    ("createdAt", py_or block_time timestamp)
  ].

Definition process_match_order_event (event_params : PyVal) (height : Z)
    (block_time tx_id : PyVal) : M unit :=
  try_except
    (p ← lift (match_params event_params);
     let timestamp := extract_timestamp (m_order_time p) in
     existing_order ← find_one [("orderId", m_order_id p)];
     match existing_order with
     | None => logger (ErrOrderNotFound MATCH_ORDER (m_order_id p))
     | Some existing_order =>
         order_update ← lift (match_order_update existing_order p timestamp height);
         queue_order_update {| q_filter := [("orderId", m_order_id p)];
                               q_update := SetFields order_update;
                               q_upsert := false |};;
         queue_trade_insert (trade_data p timestamp height block_time tx_id)
     end)
    (fun e => logger (ErrProcessing MATCH_ORDER e)).

(** The local variables that [process_cancel_order_event] reads from the
    event parameters. *)
Record CancelParams := {
  c_account : string;
  c_order_id : string;
  c_token_returned : string;
  c_amount_returned : float
}.

Definition cancel_params (event_params : PyVal) : res CancelParams :=
  p0 ← getitem event_params 0;
  p1 ← getitem event_params 1;
  p2 ← getitem event_params 2;
  p3 ← getitem event_params 3;
  amount_returned ← safe_decimal_to_float p3;
  mret {| c_account := py_str p0;
          c_order_id := py_str p1;
          c_token_returned := py_str p2;
          c_amount_returned := amount_returned |}.

(** "Update order with cancellation information" *)
Definition cancel_order_update (p : CancelParams) (cancel_time : PyVal)
    (height : Z) : Doc :=
  list_to_map [
    ("status", PStr "cancelled");
    ("cancelledAt", cancel_time);
    ("cancelReason", PStr "user_cancelled");
    ("tokenReturned", PStr (c_token_returned p));
    ("amountReturned", PFloat (c_amount_returned p));
    ("lastUpdated", PInt height)
  ].

Definition process_cancel_order_event (event_params : PyVal) (height : Z)
    (block_time tx_id : PyVal) : M unit :=
  try_except
    (p ← lift (cancel_params event_params);
     existing_order ← find_one [("orderId", c_order_id p)];
     match existing_order with
     | None => logger (ErrOrderNotFound CANCEL_ORDER (c_order_id p))
     | Some existing_order =>
         if ne_str (existing_order !! "account") (c_account p)
         then logger (ErrAccountMismatch (c_order_id p)
                        (existing_order !! "account") (c_account p))
         else
           cancel_time ← (if py_bool block_time then mret block_time else utcnow);
           queue_order_update
             {| q_filter := [("orderId", c_order_id p); ("account", c_account p)];
                q_update := SetFields (cancel_order_update p cancel_time height);
                q_upsert := false |}
     end)
    (fun e => logger (ErrProcessing CANCEL_ORDER e)).

(** One turn of the loop over [self.order_updates]. *)
Definition execute_update (update : QueuedUpdate) : M unit :=
  if q_upsert update then
    update_one (q_filter update) (q_update update) (q_upsert update);; mret tt
  else
    matched_count ← update_one (q_filter update) (q_update update) false;
    if (matched_count =? 0)%nat then logger (WarnNoOrderFound (q_filter update))
    else mret tt.

Definition execute_batch_updates : M unit :=
  try_except
    (updates ← gets order_updates;
     match updates with
     | [] => mret tt
     | _ => for_each execute_update updates;;
            modify (set_order_updates (fun _ => []))
     end;;
     trades ← gets trade_inserts;
     match trades with
     | [] => mret tt
     | _ => insert_many trades;;
            modify (set_trade_inserts (fun _ => []))
     end)
    (fun e => logger (ErrBatch e);; raise e).

End EventProcessor.

(* ===================================================================== *)
(** * database.py *)
(* ===================================================================== *)

(** [l.sort(key=key)] and a cursor's [.sort(field, 1)]: a stable sort. The
    result of a stable sort is fixed by the list and the keys, so the
    insertion sort below returns what Python's sort returns. *)
Fixpoint insert_sorted {A K} (le : K -> K -> bool) (key : A -> K) (x : A)
    (l : list A) : list A :=
  match l with
  | [] => [x]
  | y :: l' =>
      if le (key x) (key y) then x :: y :: l'
      else y :: insert_sorted le key x l'
  end.

Definition stable_sort {A K} (le : K -> K -> bool) (key : A -> K)
    (l : list A) : list A :=
  foldr (insert_sorted le key) [] l.

(** Whether the integer [h] is above the value [m * base^e]. *)
Definition above_scaled (h m base e : Z) : bool :=
  (if 0 <=? e then m * base ^ e <? h else m <? h * base ^ (- e))%Z.

(** [{"height": {"$gt": bound}}] on an event of height [h]: the store
    compares numbers by value whatever their numeric type, and matches no
    number against a bound of another kind. *)
Definition height_gt (bound : PyVal) (h : option Z) : bool :=
  match h with
  | None => false
  | Some h =>
      match bound with
      | PInt b => (b <? h)%Z
      | PFloat f =>
          match Prim2SF f with
          | S754_zero _ => (0 <? h)%Z
          | S754_infinity s => s
          | S754_nan => false
          | S754_finite s m e =>
              above_scaled h (if s then Z.neg m else Z.pos m) 2 e
          end
      | PDecimal128 (DFinite s c e) =>
          above_scaled h (if s then - Z.of_N c else Z.of_N c)%Z 10 e
      | PDecimal128 (DInfinity s) => s
      | _ => false
      end
  end.

Definition height_le (a b : option Z) : bool :=
  match a, b with
  | Some x, Some y => (x <=? y)%Z
  | None, _ => true
  | Some _, None => false
  end.

(** The value of [fetch_events]: the dict with its three lists. *)
Record Events := {
  place_orders : list RawEvent;
  match_orders : list RawEvent;
  cancel_orders : list RawEvent
}.

Definition last_order_height : Filter := [("_id", "last_order_height")].


Definition get_last_processed_height : M PyVal :=
  try_except
    (last_height_doc ← find_one last_order_height;
     match last_height_doc with
     | Some d =>
         match d !! "value" with
         | Some v => mret v
         | None => raise KeyError
         end
     | None => mret (PInt 0)
     end)
    (fun e => logger (ErrLastHeightRead e);; mret (PInt 0)).

Definition update_last_processed_height (height : Z) : M unit :=
  try_except
    (update_one last_order_height (SetFields {[ "value" := PInt height ]}) true;;
     mret tt)
    (fun e => logger (ErrLastHeightWrite e)).

(** [list(collection.find({"height": {"$gt": last}}).sort("height", 1))] *)
Definition find_events (collection : World -> list RawEvent)
    (last_order_height : PyVal) : M (list RawEvent) :=
  store_call;;
  gets (fun w => stable_sort height_le ev_height
                   (List.filter (fun ev => height_gt last_order_height (ev_height ev))
                      (collection w))).

(** [fetch_events]: the lists fetched before a failure stay in the dict. *)
Definition fetch_events (last_order_height : PyVal) : M Events :=
  try_except
    (place ← find_events place_order_events last_order_height;
     try_except
       (mtch ← find_events match_order_events last_order_height;
        try_except
          (cancel ← find_events cancel_order_events last_order_height;
           mret {| place_orders := place; match_orders := mtch; cancel_orders := cancel |})
          (fun e => logger (ErrFetch e);;
                    mret {| place_orders := place; match_orders := mtch; cancel_orders := [] |}))
       (fun e => logger (ErrFetch e);;
                 mret {| place_orders := place; match_orders := []; cancel_orders := [] |}))
    (fun e => logger (ErrFetch e);;
              mret {| place_orders := []; match_orders := []; cancel_orders := [] |}).



(* ===================================================================== *)
(** * main_processor.py *)
(* ===================================================================== *)

Definition with_type (t : EventType) (event : RawEvent) : RawEvent :=
  {| ev_height := ev_height event;
     ev_params := ev_params event;
     ev_blockTime := ev_blockTime event;
     ev_txId := ev_txId event;
     ev_type := Some t |}.

(** One of the three loops of [fetch_and_organize_events]. *)
Definition organize (t : EventType) (events : list RawEvent)
    (events_by_height : gmap Z (list RawEvent)) : gmap Z (list RawEvent) :=
  foldl (fun acc event =>
           match ev_height event with
           | Some height => <[height := default [] (acc !! height) ++ [with_type t event]]> acc
           | None => acc
           end)
        events_by_height events.

Definition event_priority (t : option EventType) : nat :=
  match t with
  | Some PLACE_ORDER => 0
  | Some MATCH_ORDER => 1
  | Some CANCEL_ORDER => 2
  | None => 999
  end.


(** [events.sort(key=lambda x: event_priority.get(x.get('event_type'), 999))] *)
Definition sort_events (events : list RawEvent) : list RawEvent :=
  stable_sort Nat.leb (fun x => event_priority (ev_type x)) events.

Section MainProcessor.
Context {I : PyInterp}.


(** The body of [for event in events]. *)
Definition process_event (height : Z) (event : RawEvent) : M unit :=
  let event_type := ev_type event in
  let event_params := default (PList []) (ev_params event) in
  let block_time := default PNone (ev_blockTime event) in
  let tx_id := default PNone (ev_txId event) in
  match event_type with
  | Some PLACE_ORDER =>
      verdict ← lift (validate_place_order_params event_params);
      match verdict with
      | Invalid error_msg => logger (ErrInvalidEvent PLACE_ORDER height error_msg)
      | Valid => process_place_order_event event_params height block_time tx_id
      end
  | Some MATCH_ORDER =>
      verdict ← lift (validate_match_order_params event_params);
      match verdict with
      | Invalid error_msg => logger (ErrInvalidEvent MATCH_ORDER height error_msg)
      | Valid => process_match_order_event event_params height block_time tx_id
      end
  | Some CANCEL_ORDER =>
      verdict ← lift (validate_cancel_order_params event_params);
      match verdict with
      | Invalid error_msg => logger (ErrInvalidEvent CANCEL_ORDER height error_msg)
      | Valid => process_cancel_order_event event_params height block_time tx_id
      end
  | None => mret tt
  end.

(** The body of [for height in sorted(events_by_height.keys())]. *)
Definition process_height (events_by_height : gmap Z (list RawEvent))
    (height : Z) : M unit :=
  let events := sort_events (default [] (events_by_height !! height)) in
  for_each (process_event height) events;;
  execute_batch_updates;;
  update_last_processed_height height.




(** One event committed on its own, as at a height that holds only that
    event: the handler, then [execute_batch_updates]. *)
Definition apply_place (event_params : PyVal) (height : Z)
    (block_time tx_id : PyVal) : M unit :=
  process_place_order_event event_params height block_time tx_id;;
  execute_batch_updates.

Definition apply_match (event_params : PyVal) (height : Z)
    (block_time tx_id : PyVal) : M unit :=
  process_match_order_event event_params height block_time tx_id;;
  execute_batch_updates.

Definition apply_cancel (event_params : PyVal) (height : Z)
    (block_time tx_id : PyVal) : M unit :=
  process_cancel_order_event event_params height block_time tx_id;;
  execute_batch_updates.

End MainProcessor.

(* ===================================================================== *)
(** * Worlds and interpreters for the examples *)
(* ===================================================================== *)

(** [float(s)] for the plain literals of the examples: digits, one
    optional point, no sign and no exponent. *)
Definition digit_of (c : ascii) : option N :=
  let n := N_of_ascii c in
  if ((48 <=? n) && (n <=? 57))%N then Some (n - 48)%N else None.

Fixpoint read_digits (s : string) (acc : N) (frac : Z) (seen_point : bool)
    : option (N * Z) :=
  match s with
  | EmptyString => Some (acc, frac)
  | String c s' =>
      if Ascii.eqb c "." then
        if seen_point then None else read_digits s' acc frac true
      else
        match digit_of c with
        | Some d => read_digits s' (acc * 10 + d)%N
                      (if seen_point then frac - 1 else frac)%Z seen_point
        | None => None
        end
  end.

Definition float_of_literal (s : string) : option float :=
  match s with
  | EmptyString | String "." EmptyString => None
  | _ =>
      match read_digits s 0 0 false with
      | Some (c, e) =>
          match float_of_decimal (DFinite false c e) with
          | Ok f => Some f
          | Raise _ => None
          end
      | None => None
      end
  end.

(** [str(v)] where its text does not depend on a float: None, bools and
    ints; the examples apply [str] to no other value than these and
    strings. *)
Definition repr_plain (v : PyVal) : string :=
  match v with
  | PNone => "None"
  | PBool true => "True"
  | PBool false => "False"
  | PInt z => pretty z
  | _ => "?"
  end.

Definition example_interp : PyInterp :=
  {| float_of_str := float_of_literal; py_repr := repr_plain |}.

Definition empty_world : World :=
  {| orders_collection := []; trades_collection := [];
     place_order_events := []; match_order_events := []; cancel_order_events := [];
     order_updates := []; trade_inserts := [];
     faults := []; clock := []; journal := []; log := [] |}.

(* ===================================================================== *)
(** * Comparisons of floats with zero *)
(* ===================================================================== *)

Lemma leb_zero_not_nan (x : float) :
  is_nan x = false -> (x <=? 0)%float = negb (0 <? x)%float.
Proof.
  unfold is_nan. rewrite FloatAxioms.leb_spec, FloatAxioms.ltb_spec, FloatAxioms.eqb_spec.
  change (Prim2SF 0) with (S754_zero false).
  destruct (Prim2SF x) as [s|s| |s m e]; cbn; try destruct s; cbn; congruence.
Qed.

Lemma ltb_zero_not_nan (x : float) :
  is_nan x = false -> (x <? 0)%float = negb (0 <=? x)%float.
Proof.
  unfold is_nan. rewrite FloatAxioms.leb_spec, FloatAxioms.ltb_spec, FloatAxioms.eqb_spec.
  change (Prim2SF 0) with (S754_zero false).
  destruct (Prim2SF x) as [s|s| |s m e]; cbn; try destruct s; cbn; congruence.
Qed.


(* ===================================================================== *)
(** * The validators (utils.py) *)
(* ===================================================================== *)

Section Validators.
Context {I : PyInterp}.

(** Entry [i] of the parameters converts to the number [f]. *)
Definition num_at (ps : list PyVal) (i : nat) (f : float) : Prop :=
  exists v, ps !! i = Some v /\ safe_decimal_to_float v = Ok f.

(** Entry [i] of the parameters has the text [s]. *)
Definition str_at (ps : list PyVal) (i : nat) (s : string) : Prop :=
  exists v, ps !! i = Some v /\ py_str v = s.

(** No numeric entry at the indices [idx] converts to a NaN. *)
Definition no_nan_at (idx : list nat) (params : PyVal) : Prop :=
  forall ps i f, params = PList ps -> In i idx -> num_at ps i f -> is_nan f = false.

(** The well-formed events, as the code accepts them. *)
Definition place_well_formed (params : PyVal) : Prop :=
  exists ps account order_id amount price pair dollar_value,
    params = PList ps /\ 8 <= length ps /\
    str_at ps 0 account /\ str_at ps 1 order_id /\
    num_at ps 2 amount /\ num_at ps 3 price /\
    str_at ps 6 pair /\ num_at ps 7 dollar_value /\
    account <> "" /\ order_id <> "" /\ pair <> "" /\
    (0 <? amount)%float = true /\ (0 <? price)%float = true /\
    (0 <? dollar_value)%float = true.

Definition match_well_formed (params : PyVal) : Prop :=
  exists ps maker taker order_id amount price pair dollar_value fee,
    params = PList ps /\ 10 <= length ps /\
    str_at ps 0 maker /\ str_at ps 1 taker /\ str_at ps 2 order_id /\
    num_at ps 3 amount /\ num_at ps 4 price /\
    str_at ps 7 pair /\ num_at ps 8 dollar_value /\ num_at ps 9 fee /\
    maker <> "" /\ taker <> "" /\ order_id <> "" /\ pair <> "" /\
    (0 <? amount)%float = true /\ (0 <? price)%float = true /\
    (0 <? dollar_value)%float = true /\ (0 <=? fee)%float = true.

Definition cancel_well_formed (params : PyVal) : Prop :=
  exists ps account order_id token_returned amount_returned,
    params = PList ps /\ 4 <= length ps /\
    str_at ps 0 account /\ str_at ps 1 order_id /\
    str_at ps 2 token_returned /\ num_at ps 3 amount_returned /\
    account <> "" /\ order_id <> "" /\ token_returned <> "" /\
    (0 <=? amount_returned)%float = true.

(** The conditions that the spec lists for MATCH and CANCEL: the numeric
    ones for MATCH, the token and the amount for CANCEL. *)
Definition match_listed_conditions (params : PyVal) : Prop :=
  exists ps amount price dollar_value fee,
    params = PList ps /\ 10 <= length ps /\
    num_at ps 3 amount /\ num_at ps 4 price /\
    num_at ps 8 dollar_value /\ num_at ps 9 fee /\
    (0 <? amount)%float = true /\ (0 <? price)%float = true /\
    (0 <? dollar_value)%float = true /\ (0 <=? fee)%float = true.

Lemma is_empty_false (s : string) : is_empty s = false <-> s <> "".
Proof.
  unfold is_empty. destruct (String.eqb_spec s ""); split; congruence.
Qed.

Lemma item_Some (ps : list PyVal) (i : nat) (v : PyVal) :
  item ps i = Ok v <-> ps !! i = Some v.
Proof.
  unfold item. destruct (ps !! i); split; congruence.
Qed.

Lemma item_lt (ps : list PyVal) (i : nat) :
  i < length ps -> exists v, ps !! i = Some v /\ item ps i = Ok v.
Proof.
  intros Hlt. destruct (lookup_lt_is_Some_2 ps i Hlt) as [v Hv].
  exists v. split; [done|]. by apply item_Some.
Qed.

Lemma except_value_type_valid (body : res Verdict) :
  except_value_type body = Ok Valid <-> body = Ok Valid.
Proof.
  unfold except_value_type. destruct body as [[]|[]]; split; congruence.
Qed.

(** What a validator can return: a verdict, or the one exception its
    [except] clause lets through. *)
Lemma except_value_type_cases (body : res Verdict) :
  (forall e, body = Raise e -> e = ValueError \/ e = TypeError \/ e = OverflowError) ->
  except_value_type body = Ok Valid \/
  (exists why, except_value_type body = Ok (Invalid why)) \/
  except_value_type body = Raise OverflowError.
Proof.
  intros Hexn. destruct body as [[|why]|e]; cbn; eauto.
  destruct (Hexn e eq_refl) as [->|[->| ->]]; cbn; eauto.
Qed.

Lemma safe_decimal_to_float_raises (v : PyVal) (e : exn) :
  safe_decimal_to_float v = Raise e ->
  e = ValueError \/ e = TypeError \/ e = OverflowError.
Proof.
  destruct v as [ |b|z|f|s|d|d|t|items|items]; cbn; try (intros [= <-]; eauto; fail).
  - unfold float_of_int. case_match; intros [= <-]; eauto.
  - unfold float_of_int. case_match; intros [= <-]; eauto.
  - destruct (float_of_str s); intros [= <-]; eauto.
  - destruct d as [neg [|m] [|k|k]| | |]; cbn; intros [= <-]; eauto.
  - destruct d as [neg [|m] [|k|k]| | |]; cbn; intros [= <-]; eauto.
Qed.

End Validators.

Ltac take_item ps i :=
  let v := fresh "v" in
  let Hv := fresh "Hv" in
  let Hi := fresh "Hi" in
  destruct (item_lt ps i ltac:(lia)) as (v & Hv & Hi);
  rewrite Hi; cbn [mbind res_bind].

Section ValidatorProofs.
Context {I : PyInterp}.

Lemma num_at_inv ps i v f f' :
  ps !! i = Some v -> safe_decimal_to_float v = Ok f -> num_at ps i f' -> f' = f.
Proof. intros Hv Hf (v' & Hv' & Hf'). congruence. Qed.

Lemma num_at_raise ps i v e f :
  ps !! i = Some v -> safe_decimal_to_float v = Raise e -> num_at ps i f -> False.
Proof. intros Hv Hf (v' & Hv' & Hf'). congruence. Qed.

Lemma str_at_inv ps i v s :
  ps !! i = Some v -> str_at ps i s -> s = py_str v.
Proof. intros Hv (v' & Hv' & Hs). congruence. Qed.

Lemma describe_nonempty why : describe why <> "".
Proof.
  destruct why as [p|kind fields n got|what|what|what|e]; cbn; try discriminate.
  all: destruct what; discriminate.
Qed.

(** A validator returns [(True, "")], or [(False, message)] with a
    message, or lets an OverflowError through. *)
Definition verdict_or_overflow (r : res Verdict) : Prop :=
  r = Ok Valid \/
  (exists why, r = Ok (Invalid why) /\ describe why <> "") \/
  r = Raise OverflowError.

Lemma verdict_invalid why : verdict_or_overflow (Ok (Invalid why)).
Proof. right; left. exists why. split; [done|apply describe_nonempty]. Qed.

Lemma verdict_raise e :
  e = ValueError \/ e = TypeError \/ e = OverflowError ->
  verdict_or_overflow (except_value_type (Raise e)).
Proof.
  intros [->|[->| ->]]; cbn; [apply verdict_invalid..|]. right; right. done.
Qed.

Ltac convert v :=
  let f := fresh "f" in
  let e := fresh "e" in
  let H := fresh "Hf" in
  destruct (safe_decimal_to_float v) as [f|e] eqn:H; cbn [mbind res_bind];
  [|apply verdict_raise; by eapply safe_decimal_to_float_raises].

Lemma validate_place_verdict params :
  verdict_or_overflow (validate_place_order_params params).
Proof.
  unfold validate_place_order_params.
  destruct params as [ |b|z|f|s|d|d|t|items|ps]; try apply verdict_invalid.
  destruct (Nat.ltb_spec (length ps) 8) as [Hlen|Hlen]; [apply verdict_invalid|].
  take_item ps 0. take_item ps 1. take_item ps 2. convert v1.
  take_item ps 3. convert v2. take_item ps 4. take_item ps 5. take_item ps 6.
  take_item ps 7. convert v6.
  repeat case_match; cbn; try apply verdict_invalid. by left.
Qed.

Lemma validate_match_verdict params :
  verdict_or_overflow (validate_match_order_params params).
Proof.
  unfold validate_match_order_params.
  destruct params as [ |b|z|f|s|d|d|t|items|ps]; try apply verdict_invalid.
  destruct (Nat.ltb_spec (length ps) 10) as [Hlen|Hlen]; [apply verdict_invalid|].
  take_item ps 0. take_item ps 1. take_item ps 2. take_item ps 3. convert v2.
  take_item ps 4. convert v3. take_item ps 5. take_item ps 6. take_item ps 7.
  take_item ps 8. convert v7. take_item ps 9. convert v8.
  repeat case_match; cbn; try apply verdict_invalid. by left.
Qed.

Lemma validate_cancel_verdict params :
  verdict_or_overflow (validate_cancel_order_params params).
Proof.
  unfold validate_cancel_order_params.
  destruct params as [ |b|z|f|s|d|d|t|items|ps]; try apply verdict_invalid.
  destruct (Nat.ltb_spec (length ps) 4) as [Hlen|Hlen]; [apply verdict_invalid|].
  take_item ps 0. take_item ps 1. take_item ps 2. take_item ps 3. convert v2.
  repeat case_match; cbn; try apply verdict_invalid. by left.
Qed.

Lemma validate_place_iff params :
  no_nan_at [2; 3; 7] params ->
  validate_place_order_params params = Ok Valid <-> place_well_formed params.
Proof.
  intros Hnan. unfold validate_place_order_params.
  destruct params as [ |b|z|f|s|d|d|t|items|ps];
    try (split; [discriminate | intros (? & ? & ? & ? & ? & ? & ? & [=] & _)]).
  destruct (Nat.ltb_spec (length ps) 8) as [Hlen|Hlen].
  { split; [discriminate|].
    intros (? & ? & ? & ? & ? & ? & ? & [= <-] & ? & _). lia. }
  rewrite except_value_type_valid.
  take_item ps 0. take_item ps 1. take_item ps 2.
  destruct (safe_decimal_to_float v1) as [amount|e] eqn:Hamount; cbn [mbind res_bind].
  2: { split; [discriminate|].
       intros (? & ? & ? & ? & ? & ? & ? & [= <-] & ? & _ & _ & Hn & _).
       destruct (num_at_raise _ _ _ _ _ Hv1 Hamount Hn). }
  take_item ps 3.
  destruct (safe_decimal_to_float v2) as [price|e] eqn:Hprice; cbn [mbind res_bind].
  2: { split; [discriminate|].
       intros (? & ? & ? & ? & ? & ? & ? & [= <-] & ? & _ & _ & _ & Hn & _).
       destruct (num_at_raise _ _ _ _ _ Hv2 Hprice Hn). }
  take_item ps 4. take_item ps 5. take_item ps 6. take_item ps 7.
  destruct (safe_decimal_to_float v6) as [dollar|e] eqn:Hdollar; cbn [mbind res_bind].
  2: { split; [discriminate|].
       intros (? & ? & ? & ? & ? & ? & ? & [= <-] & ? & _ & _ & _ & _ & _ & Hn & _).
       destruct (num_at_raise _ _ _ _ _ Hv6 Hdollar Hn). }
  assert (Ha : is_nan amount = false)
    by (eapply (Hnan ps 2); [done|cbn; tauto|by exists v1]).
  assert (Hp : is_nan price = false)
    by (eapply (Hnan ps 3); [done|cbn; tauto|by exists v2]).
  assert (Hd : is_nan dollar = false)
    by (eapply (Hnan ps 7); [done|cbn; tauto|by exists v6]).
  rewrite !leb_zero_not_nan by done.
  split.
  - destruct (is_empty (py_str v)) eqn:E0; [discriminate|].
    destruct (is_empty (py_str v0)) eqn:E1; [discriminate|].
    destruct (0 <? amount)%float eqn:E2; [|discriminate].
    destruct (0 <? price)%float eqn:E3; [|discriminate].
    destruct (is_empty (py_str v5)) eqn:E4; [discriminate|].
    destruct (0 <? dollar)%float eqn:E5; [|discriminate].
    intros _. exists ps, (py_str v), (py_str v0), amount, price, (py_str v5), dollar.
    rewrite is_empty_false in E0, E1, E4.
    repeat split; try done; try (eexists; split; [eassumption|done]).
  - intros (ps' & account & order_id & a & p & pair & dv & [= <-] & _
            & H0 & H1 & H2 & H3 & H6 & H7 & Ne0 & Ne1 & Ne6 & Pa & Pp & Pd).
    apply (str_at_inv _ _ _ _ Hv) in H0. apply (str_at_inv _ _ _ _ Hv0) in H1.
    apply (str_at_inv _ _ _ _ Hv5) in H6.
    apply (num_at_inv _ _ _ _ _ Hv1 Hamount) in H2.
    apply (num_at_inv _ _ _ _ _ Hv2 Hprice) in H3.
    apply (num_at_inv _ _ _ _ _ Hv6 Hdollar) in H7. subst.
    apply is_empty_false in Ne0, Ne1, Ne6. rewrite Ne0, Ne1, Ne6, Pa, Pp, Pd. done.
Qed.

Lemma validate_match_iff params :
  no_nan_at [3; 4; 8; 9] params ->
  validate_match_order_params params = Ok Valid <-> match_well_formed params.
Proof.
  intros Hnan. unfold validate_match_order_params.
  destruct params as [ |b|z|f|s|d|d|t|items|ps];
    try (split; [discriminate | intros (? & ? & ? & ? & ? & ? & ? & ? & ? & [=] & _)]).
  destruct (Nat.ltb_spec (length ps) 10) as [Hlen|Hlen].
  { split; [discriminate|].
    intros (? & ? & ? & ? & ? & ? & ? & ? & ? & [= <-] & ? & _). lia. }
  rewrite except_value_type_valid.
  take_item ps 0. take_item ps 1. take_item ps 2. take_item ps 3.
  destruct (safe_decimal_to_float v2) as [amount|e] eqn:Hamount; cbn [mbind res_bind].
  2: { split; [discriminate|].
       intros (? & ? & ? & ? & ? & ? & ? & ? & ? & [= <-] & ? & _ & _ & _ & Hn & _).
       destruct (num_at_raise _ _ _ _ _ Hv2 Hamount Hn). }
  take_item ps 4.
  destruct (safe_decimal_to_float v3) as [price|e] eqn:Hprice; cbn [mbind res_bind].
  2: { split; [discriminate|].
       intros (? & ? & ? & ? & ? & ? & ? & ? & ? & [= <-] & ? & _ & _ & _ & _ & Hn & _).
       destruct (num_at_raise _ _ _ _ _ Hv3 Hprice Hn). }
  take_item ps 5. take_item ps 6. take_item ps 7. take_item ps 8.
  destruct (safe_decimal_to_float v7) as [dollar|e] eqn:Hdollar; cbn [mbind res_bind].
  2: { split; [discriminate|].
       intros (? & ? & ? & ? & ? & ? & ? & ? & ? & [= <-] & ? & _ & _ & _ & _ & _ & _ & Hn & _).
       destruct (num_at_raise _ _ _ _ _ Hv7 Hdollar Hn). }
  take_item ps 9.
  destruct (safe_decimal_to_float v8) as [fee|e] eqn:Hfee; cbn [mbind res_bind].
  2: { split; [discriminate|].
       intros (? & ? & ? & ? & ? & ? & ? & ? & ? & [= <-] & ? & _ & _ & _ & _ & _ & _ & _ & Hn & _).
       destruct (num_at_raise _ _ _ _ _ Hv8 Hfee Hn). }
  assert (Ha : is_nan amount = false)
    by (eapply (Hnan ps 3); [done|cbn; tauto|by exists v2]).
  assert (Hp : is_nan price = false)
    by (eapply (Hnan ps 4); [done|cbn; tauto|by exists v3]).
  assert (Hd : is_nan dollar = false)
    by (eapply (Hnan ps 8); [done|cbn; tauto|by exists v7]).
  assert (Hfn : is_nan fee = false)
    by (eapply (Hnan ps 9); [done|cbn; tauto|by exists v8]).
  rewrite !leb_zero_not_nan, ltb_zero_not_nan by done.
  split.
  - destruct (is_empty (py_str v)) eqn:E0; [discriminate|].
    destruct (is_empty (py_str v0)) eqn:E1; [discriminate|].
    destruct (is_empty (py_str v1)) eqn:E2; [discriminate|].
    destruct (0 <? amount)%float eqn:E3; [|discriminate].
    destruct (0 <? price)%float eqn:E4; [|discriminate].
    destruct (is_empty (py_str v6)) eqn:E5; [discriminate|].
    destruct (0 <? dollar)%float eqn:E6; [|discriminate].
    destruct (0 <=? fee)%float eqn:E7; [|discriminate].
    intros _.
    exists ps, (py_str v), (py_str v0), (py_str v1), amount, price, (py_str v6), dollar, fee.
    rewrite is_empty_false in E0, E1, E2, E5.
    repeat split; try done; try (eexists; split; [eassumption|done]).
  - intros (ps' & maker & taker & order_id & a & p & pair & dv & fe & [= <-] & _
            & H0 & H1 & H2 & H3 & H4 & H7 & H8 & H9
            & Ne0 & Ne1 & Ne2 & Ne7 & Pa & Pp & Pd & Pf).
    apply (str_at_inv _ _ _ _ Hv) in H0. apply (str_at_inv _ _ _ _ Hv0) in H1.
    apply (str_at_inv _ _ _ _ Hv1) in H2. apply (str_at_inv _ _ _ _ Hv6) in H7.
    apply (num_at_inv _ _ _ _ _ Hv2 Hamount) in H3.
    apply (num_at_inv _ _ _ _ _ Hv3 Hprice) in H4.
    apply (num_at_inv _ _ _ _ _ Hv7 Hdollar) in H8.
    apply (num_at_inv _ _ _ _ _ Hv8 Hfee) in H9. subst.
    apply is_empty_false in Ne0, Ne1, Ne2, Ne7.
    rewrite Ne0, Ne1, Ne2, Ne7, Pa, Pp, Pd, Pf. done.
Qed.

Lemma validate_cancel_iff params :
  no_nan_at [3] params ->
  validate_cancel_order_params params = Ok Valid <-> cancel_well_formed params.
Proof.
  intros Hnan. unfold validate_cancel_order_params.
  destruct params as [ |b|z|f|s|d|d|t|items|ps];
    try (split; [discriminate | intros (? & ? & ? & ? & ? & [=] & _)]).
  destruct (Nat.ltb_spec (length ps) 4) as [Hlen|Hlen].
  { split; [discriminate|].
    intros (? & ? & ? & ? & ? & [= <-] & ? & _). lia. }
  rewrite except_value_type_valid.
  take_item ps 0. take_item ps 1. take_item ps 2. take_item ps 3.
  destruct (safe_decimal_to_float v2) as [amount|e] eqn:Hamount; cbn [mbind res_bind].
  2: { split; [discriminate|].
       intros (? & ? & ? & ? & ? & [= <-] & ? & _ & _ & _ & Hn & _).
       destruct (num_at_raise _ _ _ _ _ Hv2 Hamount Hn). }
  assert (Ha : is_nan amount = false)
    by (eapply (Hnan ps 3); [done|cbn; tauto|by exists v2]).
  rewrite ltb_zero_not_nan by done.
  split.
  - destruct (is_empty (py_str v)) eqn:E0; [discriminate|].
    destruct (is_empty (py_str v0)) eqn:E1; [discriminate|].
    destruct (is_empty (py_str v1)) eqn:E2; [discriminate|].
    destruct (0 <=? amount)%float eqn:E3; [|discriminate].
    intros _. exists ps, (py_str v), (py_str v0), (py_str v1), amount.
    rewrite is_empty_false in E0, E1, E2.
    repeat split; try done; try (eexists; split; [eassumption|done]).
  - intros (ps' & account & order_id & token & a & [= <-] & _
            & H0 & H1 & H2 & H3 & Ne0 & Ne1 & Ne2 & Pa).
    apply (str_at_inv _ _ _ _ Hv) in H0. apply (str_at_inv _ _ _ _ Hv0) in H1.
    apply (str_at_inv _ _ _ _ Hv1) in H2.
    apply (num_at_inv _ _ _ _ _ Hv2 Hamount) in H3. subst.
    apply is_empty_false in Ne0, Ne1, Ne2. rewrite Ne0, Ne1, Ne2, Pa. done.
Qed.

(** C8 (as amended). For every params value whose numeric entries do not
    convert to a NaN, each validator accepts exactly the well-formed
    events: a list with at least 8 / 10 / 4 entries whose numeric entries
    convert, with amount > 0, price > 0, dollarValue > 0 and non-empty
    account, orderId and pair for PLACE; non-empty maker, taker, orderId
    and pair, amount > 0, price > 0, dollarValue > 0 and fee >= 0 for
    MATCH; non-empty account, orderId and tokenReturned and
    amountReturned >= 0 for CANCEL. On every params value a validator
    returns acceptance, or a rejection with a non-empty reason, or lets
    the OverflowError of an int beyond the float range through. *)
Theorem validators_accept_well_formed (params : PyVal) :
  (no_nan_at [2; 3; 7] params ->
     validate_place_order_params params = Ok Valid <-> place_well_formed params) /\
  (no_nan_at [3; 4; 8; 9] params ->
     validate_match_order_params params = Ok Valid <-> match_well_formed params) /\
  (no_nan_at [3] params ->
     validate_cancel_order_params params = Ok Valid <-> cancel_well_formed params) /\
  verdict_or_overflow (validate_place_order_params params) /\
  verdict_or_overflow (validate_match_order_params params) /\
  verdict_or_overflow (validate_cancel_order_params params).
Proof.
  split; [apply validate_place_iff|].
  split; [apply validate_match_iff|].
  split; [apply validate_cancel_iff|].
  split; [apply validate_place_verdict|].
  split; [apply validate_match_verdict|apply validate_cancel_verdict].
Qed.

End ValidatorProofs.

(** ** Example events *)

Definition dec128 (coeff : N) (exp : Z) : PyVal :=
  PDecimal128 (DFinite false coeff exp).

Definition time_0 : PyVal := PDict {[ "timep" := PStr "2024-01-01T00:00:00Z" ]}.

(** PLACE(acct="a", id="o1", amount=100, price=2.0, isAsk=false,
    pair="X/Y", dollarValue=200) *)
Definition place_o1 : PyVal :=
  PList [PStr "a"; PStr "o1"; dec128 100 0; dec128 20 (-1); PBool false;
         time_0; PStr "X/Y"; dec128 200 0].

(** MATCH(maker="b", taker="a", id="o1", amount=40, price=2.1,
    dollarValue=84, fee=0.1) *)
Definition match_o1 : PyVal :=
  PList [PStr "b"; PStr "a"; PStr "o1"; dec128 40 0; dec128 21 (-1);
         PBool false; time_0; PStr "X/Y"; dec128 84 0; dec128 1 (-1)].

(** The same MATCH with an empty maker. *)
Definition match_no_maker : PyVal :=
  PList [PStr ""; PStr "a"; PStr "o1"; dec128 40 0; dec128 21 (-1);
         PBool false; time_0; PStr "X/Y"; dec128 84 0; dec128 1 (-1)].

(** CANCEL(account="a", id="o1", tokenReturned="X", amountReturned=60) *)
Definition cancel_o1 : PyVal :=
  PList [PStr "a"; PStr "o1"; PStr "X"; dec128 60 0].

Ltac solve_num_at :=
  eexists; split; [reflexivity | vm_compute; reflexivity].

Ltac solve_no_nan :=
  let ps := fresh "ps" in
  let i := fresh "i" in
  let f := fresh "f" in
  let Hps := fresh "Hps" in
  let Hin := fresh "Hin" in
  let Hn := fresh "Hn" in
  let v := fresh "v" in
  let Hv := fresh "Hv" in
  let Hf := fresh "Hf" in
  intros ps i f Hps Hin (v & Hv & Hf); injection Hps as <-;
  cbn in Hin; repeat (destruct Hin as [<-|Hin]; [cbn in Hv; injection Hv as <-;
    vm_compute in Hf; injection Hf as <-; reflexivity|]); destruct Hin.

(** C8, as the claim states it for MATCH, fails: ten entries with
    amount > 0, price > 0, dollarValue > 0 and fee >= 0, and the validator
    rejects the event, because the maker is empty. *)
Lemma match_with_empty_maker_rejected :
  match_listed_conditions (I := example_interp) match_no_maker /\
  validate_match_order_params (I := example_interp) match_no_maker
    = Ok (Invalid (EmptyField "Maker account")).
Proof.
  split; [|vm_compute; reflexivity].
  eexists _, _, _, _, _. split; [reflexivity|]. split; [cbn; lia|].
  repeat (split; [solve_num_at|]).
  repeat split; vm_compute; reflexivity.
Qed.

Lemma validators_accept_well_formed_witness :
  no_nan_at (I := example_interp) [2; 3; 7] place_o1 /\
  no_nan_at (I := example_interp) [3; 4; 8; 9] match_o1 /\
  no_nan_at (I := example_interp) [3] cancel_o1 /\
  place_well_formed (I := example_interp) place_o1 /\
  match_well_formed (I := example_interp) match_o1 /\
  cancel_well_formed (I := example_interp) cancel_o1.
Proof.
  assert (Hp : no_nan_at (I := example_interp) [2; 3; 7] place_o1) by solve_no_nan.
  assert (Hm : no_nan_at (I := example_interp) [3; 4; 8; 9] match_o1) by solve_no_nan.
  assert (Hc : no_nan_at (I := example_interp) [3] cancel_o1) by solve_no_nan.
  repeat (split; [assumption|]).
  split; [|split].
  - apply (validators_accept_well_formed (I := example_interp) place_o1); [exact Hp|].
    vm_compute; reflexivity.
  - apply (validators_accept_well_formed (I := example_interp) match_o1); [exact Hm|].
    vm_compute; reflexivity.
  - apply (validators_accept_well_formed (I := example_interp) cancel_o1); [exact Hc|].
    vm_compute; reflexivity.
Defined.

(* ===================================================================== *)
(** * Running the methods in a world without failures *)
(* ===================================================================== *)

Lemma M_bind_eq {A B} (m : M A) (k : A -> M B) (w : World) :
  (m ≫= k) w = match m w with
               | (Ok a, w') => k a w'
               | (Raise e, w') => (Raise e, w')
               end.
Proof. reflexivity. Qed.

Lemma store_call_quiet w : faults w = [] -> store_call w = (Ok tt, w).
Proof. unfold store_call. by intros ->. Qed.

Lemma find_one_quiet flt w :
  faults w = [] ->
  find_one flt w = (Ok (List.find (matches flt) (orders_collection w)), w).
Proof. intros H. unfold find_one. by rewrite M_bind_eq, store_call_quiet. Qed.

(** Symbolic execution of the methods: the monad, the store operations and
    the fields of the world are unfolded; the collections' contents stay. *)
Ltac run_M :=
  cbv [apply_place apply_match apply_cancel
       execute_batch_updates execute_update update_one insert_many
       write_call find_one try_except logger modify gets lift raise
       store_call queue_order_update queue_trade_insert utcnow for_each
       mbind M_bind mret M_ret
       set_orders set_trades set_order_updates set_trade_inserts
       set_faults set_clock set_journal set_log
       orders_collection trades_collection place_order_events
       match_order_events cancel_order_events order_updates trade_inserts
       faults clock journal log q_filter q_update q_upsert
       Nat.eqb fst snd quiet the_order].

(** ** Updating the first document that a filter selects *)

Lemma update_first_find flt f docs o :
  List.find (matches flt) docs = Some o ->
  matches flt (f o) = true ->
  exists docs', update_first flt f docs = Some docs' /\
                List.find (matches flt) docs' = Some (f o).
Proof.
  induction docs as [|d ds IH]; [done|]. cbn. intros Hfind Hm.
  destruct (matches flt d) eqn:Hd.
  - injection Hfind as ->. eexists. split; [done|]. cbn. by rewrite Hm.
  - destruct (IH Hfind Hm) as (docs' & -> & Hf). eexists. split; [done|].
    cbn. by rewrite Hd.
Qed.

Lemma update_first_None flt f docs :
  List.find (matches flt) docs = None -> update_first flt f docs = None.
Proof.
  induction docs as [|d ds IH]; [done|]. cbn.
  destruct (matches flt d); [done|]. intros H. by rewrite IH.
Qed.

Lemma update_first_id flt docs o :
  List.find (matches flt) docs = Some o ->
  update_first flt (fun d => d) docs = Some docs.
Proof.
  induction docs as [|d ds IH]; [done|]. cbn.
  destruct (matches flt d); [done|]. intros H. by rewrite (IH H).
Qed.

(** A stricter filter that the selected document passes selects it too. *)
Lemma find_stricter flt flt' docs o :
  (forall d, matches flt' d = true -> matches flt d = true) ->
  List.find (matches flt) docs = Some o ->
  matches flt' o = true ->
  List.find (matches flt') docs = Some o.
Proof.
  intros Hsub. induction docs as [|d ds IH]; [done|]. cbn.
  destruct (matches flt d) eqn:Hd.
  - intros [= ->] Ho. by rewrite Ho.
  - intros Hfind Ho. destruct (matches flt' d) eqn:Hd'.
    + apply Hsub in Hd'. congruence.
    + by apply IH.
Qed.

Lemma matches_order_id id (d : Doc) :
  matches [("orderId", id)] d = field_is d "orderId" id.
Proof. cbn. apply andb_true_r. Qed.

Lemma field_is_union (upd d : Doc) k s :
  upd !! k = None -> field_is (upd ∪ d) k s = field_is d k s.
Proof. intros H. unfold field_is. by rewrite lookup_union_r. Qed.

(* ===================================================================== *)
(** * The state engine: MATCH *)
(* ===================================================================== *)

(** The accumulators of an order, stored as floats (as PLACE and MATCH
    write them) or absent (then read as 0.0), and its count of fills. *)
Definition accumulators (o : Doc)
    (filled original fill_value dollar_total fee_total : float) (fills : Z) : Prop :=
  get o "filledAmount" (PFloat 0) = PFloat filled /\
  get o "originalAmount" (PFloat 0) = PFloat original /\
  get o "totalFillValue" (PFloat 0) = PFloat fill_value /\
  get o "totalDollarValue" (PFloat 0) = PFloat dollar_total /\
  get o "totalFees" (PFloat 0) = PFloat fee_total /\
  get o "numberOfFills" (PInt 0) = PInt fills.

(** The remaining amount and the status that a MATCH stores. *)
Definition stored_remaining (original new_filled : float) : float :=
  (if original - new_filled <=? 0.001 then 0 else original - new_filled)%float.

Definition stored_status (o : Doc) (original new_filled : float) : PyVal :=
  if (original - new_filled <=? 0.001)%float then PStr "filled"
  else if (0 <? new_filled)%float then PStr "partially_filled"
  else get o "status" (PStr "active").

Section Match.
Context {I : PyInterp}.

Lemma match_order_update_fields o p ts h filled original fill_value dollar_total fee_total n :
  accumulators o filled original fill_value dollar_total fee_total n ->
  let new_filled := (filled + m_matched_amount p)%float in
  let new_fill_value := (fill_value + m_matched_amount p * m_matched_price p)%float in
  exists upd,
    match_order_update o p ts h = Ok upd /\
    upd !! "filledAmount" = Some (PFloat new_filled) /\
    upd !! "totalFillValue" = Some (PFloat new_fill_value) /\
    upd !! "averageFillPrice" =
      Some (PFloat (if 0 <? new_filled then new_fill_value / new_filled else 0)%float) /\
    upd !! "totalDollarValue" = Some (PFloat (dollar_total + m_dollar_value p)%float) /\
    upd !! "totalFees" = Some (PFloat (fee_total + m_fee p)%float) /\
    upd !! "fillPercentage" =
      Some (PFloat (if 0 <? original then new_filled / original * 100 else 0)%float) /\
    upd !! "amount" = Some (PFloat (stored_remaining original new_filled)) /\
    upd !! "status" = Some (stored_status o original new_filled) /\
    upd !! "numberOfFills" = Some (PInt (n + 1)) /\
    upd !! "orderId" = None /\ upd !! "originalAmount" = None /\
    upd !! "account" = None.
Proof.
  intros (Hf & Ho & Hv & Hd & Hfe & Hn) new_filled new_fill_value.
  unfold match_order_update, stored_remaining, stored_status.
  rewrite Hf, Ho, Hv, Hd, Hfe, Hn. cbn [as_number add_one gt_zero mbind res_bind].
  fold new_filled. fold new_fill_value.
  destruct (original - new_filled <=? 0.001)%float; [|destruct (0 <? new_filled)%float];
    (eexists; split; [reflexivity|]); repeat split; reflexivity.
Qed.

(** The handler of a MATCH for an order that the store holds: one queued
    [$set] and one queued trade. *)
Lemma process_match_quiet w params height bt tx p o upd :
  faults w = [] ->
  match_params params = Ok p ->
  the_order w (m_order_id p) = Some o ->
  match_order_update o p (extract_timestamp (m_order_time p)) height = Ok upd ->
  process_match_order_event params height bt tx w =
    (Ok tt,
     set_trade_inserts
       (fun q => q ++ [trade_data p (extract_timestamp (m_order_time p)) height bt tx])
       (set_order_updates
          (fun q => q ++ [{| q_filter := [("orderId", m_order_id p)];
                             q_update := SetFields upd;
                             q_upsert := false |}]) w)).
Proof.
  intros Hf Hp Ho Hu. unfold the_order in Ho.
  unfold process_match_order_event, try_except.
  rewrite M_bind_eq. unfold lift at 1. rewrite Hp.
  rewrite M_bind_eq, find_one_quiet by done. rewrite Ho.
  rewrite M_bind_eq. unfold lift. rewrite Hu. reflexivity.
Qed.

(** A MATCH committed on its own. *)
Lemma apply_match_quiet w params height bt tx p o upd :
  quiet w ->
  match_params params = Ok p ->
  the_order w (m_order_id p) = Some o ->
  match_order_update o p (extract_timestamp (m_order_time p)) height = Ok upd ->
  upd !! "orderId" = None ->
  exists w',
    apply_match params height bt tx w = (Ok tt, w') /\
    quiet w' /\
    the_order w' (m_order_id p) = Some (upd ∪ o) /\
    trades_collection w' = trades_collection w ++
      [trade_data p (extract_timestamp (m_order_time p)) height bt tx] /\
    log w' = log w.
Proof.
  intros (Hf & Hq & Ht) Hp Ho Hu Hid. unfold apply_match.
  rewrite M_bind_eq, (process_match_quiet _ _ _ _ _ _ _ _ Hf Hp Ho Hu).
  unfold the_order in *.
  destruct (update_first_find [("orderId", m_order_id p)] (on_match (SetFields upd)) _ _ Ho)
    as (docs' & Hup & Hfind).
  { cbn [on_match]. rewrite matches_order_id, field_is_union by done.
    rewrite <- matches_order_id. by apply find_some in Ho as [_ Ho]. }
  destruct w as [orders trades pe me ce ou ti fs clk jr lg].
  cbn [faults order_updates trade_inserts orders_collection] in *; subst.
  run_M. cbn [app]. unfold apply_update. rewrite Hup. run_M.
  eexists. split; [reflexivity|]. done.
Qed.


End Match.

(** ** A world that holds the order of the example *)

Definition world_o1 : World :=
  (apply_place (I := example_interp) place_o1 10 PNone (PStr "tx1") empty_world).2.

(** The order document that [world_o1] holds. *)
Definition order_o1 : Doc := default ∅ (the_order world_o1 "o1").

(** The local variables of the handler on [match_o1]. *)
Definition match_o1_params : MatchParams :=
  {| m_maker := "b"; m_taker := "a"; m_order_id := "o1";
     m_matched_amount := 40; m_matched_price := 2.1;
     m_is_ask := false; m_order_time := time_0; m_pair := PStr "X-Y";
     m_dollar_value := 84; m_fee := 0.1 |}.

(** Closed equations are checked by evaluation. *)
Ltac vm_refl :=
  lazymatch goal with
  | |- ?a = ?b => exact (@eq_refl _ b <: a = b)
  end.

Lemma world_o1_quiet : quiet world_o1.
Proof. repeat split; vm_refl. Qed.

Lemma world_o1_order : the_order world_o1 "o1" = Some order_o1.
Proof. vm_refl. Qed.

Lemma order_o1_accumulators : accumulators order_o1 0 100 0 200 0 0.
Proof. repeat split; vm_refl. Qed.

Lemma match_o1_parses :
  match_params (I := example_interp) match_o1 = Ok match_o1_params.
Proof. vm_refl. Qed.


(* ===================================================================== *)
(** * The remaining amount after MATCH applications *)
(* ===================================================================== *)






Section Remaining.
Context {I : PyInterp}.




Lemma get_Some (o : Doc) k dflt v : o !! k = Some v -> get o k dflt = v.
Proof. unfold get. by intros ->. Qed.



End Remaining.







(* ===================================================================== *)
(** * Further properties: PLACE *)
(* ===================================================================== *)

Lemma Ok_inj {A} (a b : A) : Ok a = Ok b -> a = b.
Proof. congruence. Qed.

(** Inversion of a chain of binds that ends in [Ok]. *)
Ltac res_inv H :=
  repeat match type of H with
  | mbind _ ?r = Ok _ =>
      let E := fresh "E" in
      destruct r eqn:E; cbn [mbind res_bind] in H; [|discriminate H]
  end.

(** Lookup of a literal key in a document written as a literal list. *)
Ltac doc_lookup :=
  unfold list_to_map; cbn [foldr fst snd];
  repeat (rewrite lookup_insert_ne by discriminate);
  first [apply lookup_insert_eq | apply lookup_empty].

Lemma find_app_None {A} (f : A -> bool) l x :
  List.find f l = None -> List.find f (l ++ [x]) = if f x then Some x else None.
Proof.
  induction l as [|y l IH]; cbn; [done|]. destruct (f y); [done|]. apply IH.
Qed.

Section Place.
Context {I : PyInterp}.

(** The fields of the order that a PLACE queues for insertion. *)
Definition placed_order (id account : string) (pair : PyVal) (amount price dollar_value : float)
    (data : Doc) : Prop :=
  data !! "orderId" = Some (PStr id) /\
  data !! "account" = Some (PStr account) /\
  data !! "pair" = Some pair /\
  data !! "originalAmount" = Some (PFloat amount) /\
  data !! "amount" = Some (PFloat amount) /\
  data !! "filledAmount" = Some (PFloat 0) /\
  data !! "price" = Some (PFloat price) /\
  data !! "status" = Some (PStr "active") /\
  data !! "fillPercentage" = Some (PFloat 0) /\
  data !! "averageFillPrice" = Some (PFloat 0) /\
  data !! "totalFillValue" = Some (PFloat 0) /\
  data !! "totalDollarValue" = Some (PFloat dollar_value) /\
  data !! "totalFees" = Some (PFloat 0) /\
  data !! "numberOfFills" = Some (PInt 0).

Lemma place_order_update_shape params h bt tx u :
  place_order_update params h bt tx = Ok u ->
  exists v0 v1 v2 v3 v6 v7 amount price dollar_value data,
    getitem params 0 = Ok v0 /\ getitem params 1 = Ok v1 /\
    getitem params 2 = Ok v2 /\ getitem params 3 = Ok v3 /\
    getitem params 6 = Ok v6 /\ getitem params 7 = Ok v7 /\
    safe_decimal_to_float v2 = Ok amount /\
    safe_decimal_to_float v3 = Ok price /\
    safe_decimal_to_float v7 = Ok dollar_value /\
    u = {| q_filter := [("orderId", py_str v1)];
           q_update := SetOnInsert data; q_upsert := true |} /\
    placed_order (py_str v1) (py_str v0) (normalize_pair (PStr (py_str v6)))
      amount price dollar_value data.
Proof.
  unfold place_order_update. intros H. res_inv H.
  apply Ok_inj in H. subst u.
  eexists _, _, _, _, _, _, _, _, _, _.
  repeat (split; [first [reflexivity | eassumption]|]). unfold placed_order.
  repeat split; doc_lookup.
Qed.

(** A PLACE committed on its own. *)
Lemma apply_place_quiet w params h bt tx :
  quiet w ->
  exists w',
    apply_place params h bt tx w = (Ok tt, w') /\
    quiet w' /\
    trades_collection w' = trades_collection w /\
    orders_collection w' =
      match place_order_update params h bt tx with
      | Ok u => (apply_update (q_filter u) (q_update u) true (orders_collection w)).1
      | Raise _ => orders_collection w
      end.
Proof.
  intros (Hf & Hq & Ht).
  destruct w as [orders trades pe me ce ou ti fs clk jr lg].
  cbn [faults order_updates trade_inserts orders_collection trades_collection] in *; subst.
  unfold apply_place, process_place_order_event.
  destruct (place_order_update params h bt tx) as [u|e] eqn:Hu.
  - destruct (place_order_update_shape _ _ _ _ _ Hu)
      as (v0 & v1 & v2 & v3 & v6 & v7 & a & p & d & data & _ & _ & _ & _ & _ & _ & _ & _ & _ & -> & _).
    run_M. cbn [app]. run_M. eexists. split; [reflexivity|]. done.
  - run_M. eexists. split; [reflexivity|]. done.
Qed.

Lemma apply_update_present flt data docs o :
  List.find (matches flt) docs = Some o ->
  apply_update flt (SetOnInsert data) true docs = (docs, 1).
Proof.
  intros H. unfold apply_update.
  change (on_match (SetOnInsert data)) with (fun d : Doc => d).
  by rewrite (update_first_id _ _ _ H).
Qed.

Lemma apply_update_absent flt upd docs :
  List.find (matches flt) docs = None ->
  apply_update flt upd true docs = (docs ++ [update_fields upd ∪ filter_doc flt], 0).
Proof. intros H. unfold apply_update. by rewrite update_first_None. Qed.

Lemma matches_inserted id (data : Doc) flt_doc :
  data !! "orderId" = Some (PStr id) ->
  matches [("orderId", id)] (data ∪ flt_doc) = true.
Proof.
  intros H. rewrite matches_order_id. unfold field_is.
  rewrite (lookup_union_Some_l _ _ _ _ H). apply String.eqb_refl.
Qed.

(** X1. A PLACE whose order id is already in the store changes neither
    collection, whatever else the event says (the upsert only sets fields
    on insert). *)
Theorem place_keeps_existing_order w params h bt tx v1 o :
  quiet w ->
  getitem params 1 = Ok v1 ->
  the_order w (py_str v1) = Some o ->
  exists w',
    apply_place params h bt tx w = (Ok tt, w') /\
    orders_collection w' = orders_collection w /\
    trades_collection w' = trades_collection w.
Proof.
  intros Hq Hv1 Ho.
  destruct (apply_place_quiet w params h bt tx Hq) as (w' & Hrun & _ & Ht & Hord).
  exists w'. split; [done|]. split; [|done]. rewrite Hord.
  destruct (place_order_update params h bt tx) as [u|e] eqn:Hu; [|done].
  destruct (place_order_update_shape _ _ _ _ _ Hu)
    as (v0 & v1' & v2 & v3 & v6 & v7 & a & p & d & data
        & _ & Hv1' & _ & _ & _ & _ & _ & _ & _ & -> & _).
  assert (v1' = v1) as -> by congruence. cbn [q_filter q_update].
  unfold the_order in Ho. by rewrite (apply_update_present _ _ _ _ Ho).
Qed.

(** X2. Applying the same PLACE a second time changes neither collection,
    for every event, well-formed or not. *)
Theorem place_twice_is_place_once w params h bt tx :
  quiet w ->
  exists w1 w2,
    apply_place params h bt tx w = (Ok tt, w1) /\
    apply_place params h bt tx w1 = (Ok tt, w2) /\
    orders_collection w2 = orders_collection w1 /\
    trades_collection w2 = trades_collection w1.
Proof.
  intros Hq.
  destruct (apply_place_quiet w params h bt tx Hq) as (w1 & Hrun1 & Hq1 & Ht1 & Hord1).
  destruct (apply_place_quiet w1 params h bt tx Hq1) as (w2 & Hrun2 & _ & Ht2 & Hord2).
  exists w1, w2. repeat (split; [done|]). split; [|done]. rewrite Hord2.
  destruct (place_order_update params h bt tx) as [u|e] eqn:Hu; [|done].
  destruct (place_order_update_shape _ _ _ _ _ Hu)
    as (v0 & v1 & v2 & v3 & v6 & v7 & a & p & d & data
        & _ & _ & _ & _ & _ & _ & _ & _ & _ & -> & Hid & _).
  cbn [q_filter q_update] in *.
  destruct (List.find (matches [("orderId", py_str v1)]) (orders_collection w)) as [o|] eqn:Hfind.
  - rewrite (apply_update_present _ _ _ _ Hfind) in Hord1. cbn [fst] in Hord1.
    rewrite Hord1. by rewrite (apply_update_present _ _ _ _ Hfind).
  - rewrite (apply_update_absent _ _ _ Hfind) in Hord1. cbn [fst update_fields] in Hord1.
    rewrite Hord1.
    erewrite apply_update_present; [done|].
    rewrite (find_app_None _ _ _ Hfind). by rewrite (matches_inserted _ _ _ Hid).
Qed.

(** Inversion of a chain of binds in [H], carried out in the goal too. *)
Ltac res_inv_both H :=
  repeat match type of H with
  | mbind _ ?r = Ok _ =>
      let E := fresh "E" in
      destruct r eqn:E; cbn [mbind res_bind] in H |- *; [|discriminate H]
  end.

Lemma validate_place_parses params h bt tx :
  validate_place_order_params params = Ok Valid ->
  exists u, place_order_update params h bt tx = Ok u.
Proof.
  unfold validate_place_order_params. intros H.
  destruct params as [ |b|z|f|s|d|d|t|items|ps]; try discriminate H.
  destruct (length ps <? 8)%nat; [discriminate H|].
  apply (proj1 (except_value_type_valid _)) in H.
  unfold place_order_update. cbn [getitem]. res_inv_both H. eexists. reflexivity.
Qed.

Lemma validate_match_parses params :
  validate_match_order_params params = Ok Valid ->
  exists p, match_params params = Ok p.
Proof.
  unfold validate_match_order_params. intros H.
  destruct params as [ |b|z|f|s|d|d|t|items|ps]; try discriminate H.
  destruct (length ps <? 10)%nat; [discriminate H|].
  apply (proj1 (except_value_type_valid _)) in H.
  unfold match_params. cbn [getitem]. res_inv_both H. eexists. reflexivity.
Qed.

Lemma validate_cancel_parses params :
  validate_cancel_order_params params = Ok Valid ->
  exists p, cancel_params params = Ok p.
Proof.
  unfold validate_cancel_order_params. intros H.
  destruct params as [ |b|z|f|s|d|d|t|items|ps]; try discriminate H.
  destruct (length ps <? 4)%nat; [discriminate H|].
  apply (proj1 (except_value_type_valid _)) in H.
  unfold cancel_params. cbn [getitem]. res_inv_both H. eexists. reflexivity.
Qed.

(** X3. A PLACE that passed validation, for an id the store does not hold,
    appends one order: remaining = original = the event's amount, nothing
    filled, status active, the accumulators at zero and the dollar total at
    the event's dollar value. *)
Theorem place_creates_active_order w params h bt tx v1 :
  quiet w ->
  validate_place_order_params params = Ok Valid ->
  getitem params 1 = Ok v1 ->
  the_order w (py_str v1) = None ->
  exists w' o v0 v2 v3 v6 v7 amount price dollar_value,
    apply_place params h bt tx w = (Ok tt, w') /\
    orders_collection w' = orders_collection w ++ [o] /\
    trades_collection w' = trades_collection w /\
    the_order w' (py_str v1) = Some o /\
    getitem params 0 = Ok v0 /\ getitem params 2 = Ok v2 /\
    getitem params 3 = Ok v3 /\ getitem params 6 = Ok v6 /\
    getitem params 7 = Ok v7 /\
    safe_decimal_to_float v2 = Ok amount /\
    safe_decimal_to_float v3 = Ok price /\
    safe_decimal_to_float v7 = Ok dollar_value /\
    placed_order (py_str v1) (py_str v0) (normalize_pair (PStr (py_str v6)))
      amount price dollar_value o.
Proof.
  intros Hq Hvalid Hv1 Hnone.
  destruct (validate_place_parses params h bt tx Hvalid) as (u & Hu).
  destruct (apply_place_quiet w params h bt tx Hq) as (w' & Hrun & _ & Ht & Hord).
  rewrite Hu in Hord.
  destruct (place_order_update_shape _ _ _ _ _ Hu)
    as (v0 & v1' & v2 & v3 & v6 & v7 & a & p & d & data
        & H0 & Hv1' & H2 & H3 & H6 & H7 & Ha & Hp & Hd & -> & Hplaced).
  assert (v1' = v1) as -> by congruence. cbn [q_filter q_update] in Hord.
  unfold the_order in *.
  rewrite (apply_update_absent _ _ _ Hnone) in Hord. cbn [fst update_fields] in Hord.
  exists w', (data ∪ filter_doc [("orderId", py_str v1)]), v0, v2, v3, v6, v7, a, p, d.
  split; [done|]. split; [done|]. split; [done|].
  split.
  { rewrite Hord, (find_app_None _ _ _ Hnone).
    destruct Hplaced as (Hid & _). by rewrite (matches_inserted _ _ _ Hid). }
  repeat (split; [done|]).
  unfold placed_order in *.
  destruct Hplaced as (P1 & P2 & P3 & P4 & P5 & P6 & P7 & P8 & P9 & P10 & P11 & P12 & P13 & P14).
  repeat split; by apply lookup_union_Some_l.
Qed.
End Place.

(** X4. An event that its validator accepts is parsed by its handler: the
    handler's [try] cannot fail on the parameters. *)
Theorem validated_events_parse {I : PyInterp} (params : PyVal) (height : Z)
    (block_time tx_id : PyVal) :
  (validate_place_order_params params = Ok Valid ->
   exists u, place_order_update params height block_time tx_id = Ok u) /\
  (validate_match_order_params params = Ok Valid ->
   exists p, match_params params = Ok p) /\
  (validate_cancel_order_params params = Ok Valid ->
   exists p, cancel_params params = Ok p).
Proof.
  split; [apply validate_place_parses|].
  split; [apply validate_match_parses|apply validate_cancel_parses].
Qed.

Lemma empty_world_quiet : quiet empty_world.
Proof. repeat split. Qed.

Lemma place_keeps_existing_order_witness :
  quiet world_o1 /\
  the_order world_o1 "o1" = Some order_o1 /\
  exists w',
    apply_place (I := example_interp) place_o1 12 PNone (PStr "tx9") world_o1 = (Ok tt, w') /\
    orders_collection w' = orders_collection world_o1 /\
    trades_collection w' = trades_collection world_o1.
Proof.
  split; [exact world_o1_quiet|]. split; [exact world_o1_order|].
  apply (place_keeps_existing_order (I := example_interp) world_o1 place_o1 12 PNone
           (PStr "tx9") (PStr "o1") order_o1 world_o1_quiet eq_refl world_o1_order).
Defined.

Lemma place_twice_is_place_once_witness :
  quiet empty_world /\
  exists w1 w2,
    apply_place (I := example_interp) place_o1 10 PNone (PStr "tx1") empty_world = (Ok tt, w1) /\
    apply_place (I := example_interp) place_o1 10 PNone (PStr "tx1") w1 = (Ok tt, w2) /\
    orders_collection w2 = orders_collection w1 /\
    trades_collection w2 = trades_collection w1.
Proof.
  split; [exact empty_world_quiet|].
  apply (place_twice_is_place_once (I := example_interp) empty_world place_o1 10 PNone
           (PStr "tx1") empty_world_quiet).
Defined.

Lemma place_o1_valid :
  validate_place_order_params (I := example_interp) place_o1 = Ok Valid.
Proof. vm_refl. Qed.

Lemma match_o1_valid :
  validate_match_order_params (I := example_interp) match_o1 = Ok Valid.
Proof. vm_refl. Qed.

Lemma cancel_o1_valid :
  validate_cancel_order_params (I := example_interp) cancel_o1 = Ok Valid.
Proof. vm_refl. Qed.

Lemma place_creates_active_order_witness :
  quiet empty_world /\
  exists w' o,
    apply_place (I := example_interp) place_o1 10 PNone (PStr "tx1") empty_world = (Ok tt, w') /\
    the_order w' "o1" = Some o /\
    o !! "status" = Some (PStr "active") /\
    o !! "amount" = Some (PFloat 100).
Proof.
  split; [exact empty_world_quiet|].
  destruct (place_creates_active_order (I := example_interp) empty_world place_o1 10 PNone
              (PStr "tx1") (PStr "o1") empty_world_quiet place_o1_valid eq_refl eq_refl)
    as (w' & o & v0 & v2 & v3 & v6 & v7 & a & p & d & Hrun & _ & _ & Ho & _ & H2 & _ & _ & _
        & Ha & _ & _ & Hplaced).
  exists w', o. split; [exact Hrun|]. split; [exact Ho|].
  destruct Hplaced as (_ & _ & _ & _ & Hamount & _ & _ & Hstatus & _).
  split; [exact Hstatus|].
  apply Ok_inj in H2. subst v2. cbv in Ha. apply Ok_inj in Ha. subst a. exact Hamount.
Defined.

Lemma validated_events_parse_witness :
  (exists u, place_order_update (I := example_interp) place_o1 10 PNone PNone = Ok u) /\
  (exists p, match_params (I := example_interp) match_o1 = Ok p) /\
  (exists p, cancel_params (I := example_interp) cancel_o1 = Ok p).
Proof.
  split; [|split].
  - apply (validated_events_parse (I := example_interp) place_o1 10 PNone PNone), place_o1_valid.
  - apply (validated_events_parse (I := example_interp) match_o1 10 PNone PNone), match_o1_valid.
  - apply (validated_events_parse (I := example_interp) cancel_o1 10 PNone PNone), cancel_o1_valid.
Defined.

(* ===================================================================== *)
(** * Further properties: CANCEL *)
(* ===================================================================== *)

Lemma update_first_find_stricter flt flt' f docs o :
  (forall d, matches flt' d = true -> matches flt d = true) ->
  List.find (matches flt) docs = Some o ->
  matches flt' o = true ->
  matches flt (f o) = true ->
  exists docs', update_first flt' f docs = Some docs' /\
                List.find (matches flt) docs' = Some (f o) /\
                length docs' = length docs.
Proof.
  intros Hsub. induction docs as [|d ds IH]; [done|]. cbn.
  destruct (matches flt d) eqn:Hd.
  - intros [= ->] Ho Hfo. rewrite Ho. eexists. split; [done|]. cbn. by rewrite Hfo.
  - intros Hfind Ho Hfo. destruct (matches flt' d) eqn:Hd'.
    + apply Hsub in Hd'. congruence.
    + destruct (IH Hfind Ho Hfo) as (docs' & -> & Hf & Hl). eexists. split; [done|].
      cbn. rewrite Hd. split; [done|]. by rewrite Hl.
Qed.

Lemma matches_order_account id account (d : Doc) :
  matches [("orderId", id); ("account", account)] d =
    field_is d "orderId" id && field_is d "account" account.
Proof. cbn. by rewrite andb_true_r. Qed.

Lemma ne_str_false (v : option PyVal) s :
  ne_str v s = false -> v = Some (PStr s).
Proof.
  destruct v as [[ | | | |t| | | | | ]|]; cbn; try discriminate.
  destruct (String.eqb_spec t s); [by intros _; subst|discriminate].
Qed.

(** The clock reading that a CANCEL without block time takes. *)
Definition cancel_time_of (block_time : PyVal) (w : World) : PyVal :=
  if py_bool block_time then block_time
  else PDatetime (match clock w with t :: _ => t | [] => 0%Z end).

Definition cancel_keys : list string :=
  ["status"; "cancelledAt"; "cancelReason"; "tokenReturned"; "amountReturned";
   "lastUpdated"].

Lemma cancel_order_update_other p t h k :
  k ∉ cancel_keys -> cancel_order_update p t h !! k = None.
Proof.
  intros Hk. apply not_elem_of_list_to_map_1. exact Hk.
Qed.

Section Cancel.
Context {I : PyInterp}.

Lemma apply_cancel_unknown w params h bt tx p :
  quiet w ->
  cancel_params params = Ok p ->
  the_order w (c_order_id p) = None ->
  apply_cancel params h bt tx w =
    (Ok tt, set_log (fun l => l ++ [ErrOrderNotFound CANCEL_ORDER (c_order_id p)]) w).
Proof.
  intros (Hf & Hq & Ht) Hp Ho. unfold the_order in Ho.
  destruct w as [orders trades pe me ce ou ti fs clk jr lg].
  cbn [faults order_updates trade_inserts orders_collection] in *; subst.
  unfold apply_cancel, process_cancel_order_event.
  run_M. rewrite Hp. run_M. rewrite Ho. run_M. reflexivity.
Qed.

Lemma apply_cancel_mismatch w params h bt tx p o :
  quiet w ->
  cancel_params params = Ok p ->
  the_order w (c_order_id p) = Some o ->
  ne_str (o !! "account") (c_account p) = true ->
  apply_cancel params h bt tx w =
    (Ok tt, set_log (fun l => l ++ [ErrAccountMismatch (c_order_id p) (o !! "account")
                                      (c_account p)]) w).
Proof.
  intros (Hf & Hq & Ht) Hp Ho Hne. unfold the_order in Ho.
  destruct w as [orders trades pe me ce ou ti fs clk jr lg].
  cbn [faults order_updates trade_inserts orders_collection] in *; subst.
  unfold apply_cancel, process_cancel_order_event.
  run_M. rewrite Hp. run_M. rewrite Ho. run_M. rewrite Hne. run_M. reflexivity.
Qed.

Lemma apply_cancel_owner w params h bt tx p o :
  quiet w ->
  cancel_params params = Ok p ->
  the_order w (c_order_id p) = Some o ->
  ne_str (o !! "account") (c_account p) = false ->
  exists w',
    apply_cancel params h bt tx w = (Ok tt, w') /\
    quiet w' /\
    the_order w' (c_order_id p) =
      Some (cancel_order_update p (cancel_time_of bt w) h ∪ o) /\
    trades_collection w' = trades_collection w /\
    length (orders_collection w') = length (orders_collection w) /\
    log w' = log w.
Proof.
  intros (Hf & Hq & Ht) Hp Ho Hne. unfold the_order in *.
  pose proof (ne_str_false _ _ Hne) as Hacct.
  destruct (update_first_find_stricter [("orderId", c_order_id p)]
              [("orderId", c_order_id p); ("account", c_account p)]
              (on_match (SetFields (cancel_order_update p (cancel_time_of bt w) h)))
              (orders_collection w) o) as (docs' & Hup & Hfind & Hlen).
  { intros d. rewrite matches_order_account, matches_order_id.
    by intros [? _]%andb_true_iff. }
  { exact Ho. }
  { rewrite matches_order_account. apply find_some in Ho as [_ Ho].
    rewrite matches_order_id in Ho. rewrite Ho. unfold field_is. rewrite Hacct.
    apply String.eqb_refl. }
  { cbn [on_match]. rewrite matches_order_id.
    rewrite field_is_union by (unfold cancel_order_update; doc_lookup).
    rewrite <- matches_order_id. by apply find_some in Ho as [_ Ho]. }
  destruct w as [orders trades pe me ce ou ti fs clk jr lg].
  cbn [faults order_updates trade_inserts orders_collection trades_collection log clock] in *; subst.
  unfold apply_cancel, process_cancel_order_event, cancel_time_of in *.
  cbn [clock] in *.
  run_M. rewrite Hp. run_M. rewrite Ho. run_M. rewrite Hne.
  destruct (py_bool bt); [|destruct clk as [|t ts]];
    run_M; cbn [app]; unfold apply_update; rewrite Hup; run_M;
    (eexists; split; [reflexivity|]); done.
Qed.

(** X5. A CANCEL for an order id that the store does not hold changes
    nothing but the log, which receives the error. *)
Theorem cancel_unknown_order_dropped w params h bt tx p :
  quiet w ->
  cancel_params params = Ok p ->
  the_order w (c_order_id p) = None ->
  apply_cancel params h bt tx w =
    (Ok tt, set_log (fun l => l ++ [ErrOrderNotFound CANCEL_ORDER (c_order_id p)]) w).
Proof. apply apply_cancel_unknown. Qed.

(** X6. A CANCEL from an account that is not the stored account of the
    order changes nothing but the log, which receives the mismatch. *)
Theorem cancel_wrong_account_dropped w params h bt tx p o :
  quiet w ->
  cancel_params params = Ok p ->
  the_order w (c_order_id p) = Some o ->
  o !! "account" <> Some (PStr (c_account p)) ->
  apply_cancel params h bt tx w =
    (Ok tt, set_log (fun l => l ++ [ErrAccountMismatch (c_order_id p) (o !! "account")
                                      (c_account p)]) w).
Proof.
  intros Hq Hp Ho Hacct. apply apply_cancel_mismatch; try done.
  destruct (ne_str (o !! "account") (c_account p)) eqn:Hne; [done|].
  by apply ne_str_false in Hne.
Qed.

(** X7. A CANCEL from the order's account is applied whatever the status of
    the order: it sets status, cancelledAt (the block time, or the clock
    when the event has none), cancelReason, tokenReturned, amountReturned
    and lastUpdated, and leaves every other field of the order, the number
    of orders and the trades as they were. *)
Theorem cancel_by_owner_sets_cancellation w params h bt tx p o :
  quiet w ->
  cancel_params params = Ok p ->
  the_order w (c_order_id p) = Some o ->
  o !! "account" = Some (PStr (c_account p)) ->
  exists w' o',
    apply_cancel params h bt tx w = (Ok tt, w') /\
    the_order w' (c_order_id p) = Some o' /\
    o' !! "status" = Some (PStr "cancelled") /\
    o' !! "cancelledAt" = Some (cancel_time_of bt w) /\
    o' !! "cancelReason" = Some (PStr "user_cancelled") /\
    o' !! "tokenReturned" = Some (PStr (c_token_returned p)) /\
    o' !! "amountReturned" = Some (PFloat (c_amount_returned p)) /\
    o' !! "lastUpdated" = Some (PInt h) /\
    (forall k, k ∉ cancel_keys -> o' !! k = o !! k) /\
    length (orders_collection w') = length (orders_collection w) /\
    trades_collection w' = trades_collection w.
Proof.
  intros Hq Hp Ho Hacct.
  destruct (apply_cancel_owner w params h bt tx p o Hq Hp Ho)
    as (w' & Hrun & _ & Ho' & Ht & Hlen & _).
  { rewrite Hacct. cbn. by rewrite String.eqb_refl. }
  exists w', (cancel_order_update p (cancel_time_of bt w) h ∪ o).
  split; [done|]. split; [done|].
  repeat (split; [apply lookup_union_Some_l; unfold cancel_order_update; doc_lookup|]).
  split; [|done].
  intros k Hk. apply lookup_union_r. by apply cancel_order_update_other.
Qed.

End Cancel.

(** ** Example worlds for CANCEL *)

(** MATCH(id="o1", amount=100, ...): it fills the order of 100. *)
Definition match_o1_full : PyVal :=
  PList [PStr "b"; PStr "a"; PStr "o1"; dec128 100 0; dec128 21 (-1);
         PBool false; time_0; PStr "X/Y"; dec128 210 0; dec128 1 (-1)].

(** The store after PLACE of "o1" and the MATCH that fills it. *)
Definition world_o1_filled : World :=
  (apply_match (I := example_interp) match_o1_full 11 PNone (PStr "tx2") world_o1).2.

Definition order_o1_filled : Doc := default ∅ (the_order world_o1_filled "o1").

(** CANCEL(account="z", id="o1", ...): not the owner. *)
Definition cancel_o1_by_z : PyVal :=
  PList [PStr "z"; PStr "o1"; PStr "X"; dec128 60 0].

Definition cancel_o1_params : CancelParams :=
  {| c_account := "a"; c_order_id := "o1"; c_token_returned := "X";
     c_amount_returned := 60 |}.

Definition cancel_o1_by_z_params : CancelParams :=
  {| c_account := "z"; c_order_id := "o1"; c_token_returned := "X";
     c_amount_returned := 60 |}.

Lemma cancel_o1_parses :
  cancel_params (I := example_interp) cancel_o1 = Ok cancel_o1_params.
Proof. vm_refl. Qed.

Lemma cancel_o1_by_z_parses :
  cancel_params (I := example_interp) cancel_o1_by_z = Ok cancel_o1_by_z_params.
Proof. vm_refl. Qed.

Lemma world_o1_filled_quiet : quiet world_o1_filled.
Proof. repeat split; vm_refl. Qed.

Lemma world_o1_filled_order : the_order world_o1_filled "o1" = Some order_o1_filled.
Proof. vm_refl. Qed.

Lemma order_o1_filled_status : order_o1_filled !! "status" = Some (PStr "filled").
Proof. vm_refl. Qed.

Lemma order_o1_filled_account : order_o1_filled !! "account" = Some (PStr "a").
Proof. vm_refl. Qed.

Lemma order_o1_account : order_o1 !! "account" = Some (PStr "a").
Proof. vm_refl. Qed.

Lemma cancel_unknown_order_dropped_witness :
  quiet empty_world /\
  the_order empty_world "o1" = None /\
  apply_cancel (I := example_interp) cancel_o1 12 PNone PNone empty_world =
    (Ok tt, set_log (fun l => l ++ [ErrOrderNotFound CANCEL_ORDER "o1"]) empty_world).
Proof.
  split; [exact empty_world_quiet|]. split; [reflexivity|].
  exact (cancel_unknown_order_dropped (I := example_interp) empty_world cancel_o1 12
           PNone PNone cancel_o1_params empty_world_quiet cancel_o1_parses eq_refl).
Defined.

Lemma cancel_wrong_account_dropped_witness :
  quiet world_o1 /\
  the_order world_o1 "o1" = Some order_o1 /\
  apply_cancel (I := example_interp) cancel_o1_by_z 12 PNone PNone world_o1 =
    (Ok tt, set_log (fun l => l ++ [ErrAccountMismatch "o1" (order_o1 !! "account") "z"])
              world_o1).
Proof.
  split; [exact world_o1_quiet|]. split; [exact world_o1_order|].
  apply (cancel_wrong_account_dropped (I := example_interp) world_o1 cancel_o1_by_z 12
           PNone PNone cancel_o1_by_z_params order_o1 world_o1_quiet
           cancel_o1_by_z_parses world_o1_order).
  rewrite order_o1_account. discriminate.
Defined.

(** The owner cancels an order that is already filled. *)
Lemma cancel_by_owner_sets_cancellation_witness :
  quiet world_o1_filled /\
  the_order world_o1_filled "o1" = Some order_o1_filled /\
  order_o1_filled !! "status" = Some (PStr "filled") /\
  exists w' o',
    apply_cancel (I := example_interp) cancel_o1 12 PNone PNone world_o1_filled = (Ok tt, w') /\
    the_order w' "o1" = Some o' /\
    o' !! "status" = Some (PStr "cancelled") /\
    o' !! "filledAmount" = order_o1_filled !! "filledAmount".
Proof.
  split; [exact world_o1_filled_quiet|]. split; [exact world_o1_filled_order|].
  split; [exact order_o1_filled_status|].
  destruct (cancel_by_owner_sets_cancellation (I := example_interp) world_o1_filled
              cancel_o1 12 PNone PNone cancel_o1_params order_o1_filled
              world_o1_filled_quiet cancel_o1_parses world_o1_filled_order
              order_o1_filled_account)
    as (w' & o' & Hrun & Ho' & Hstatus & _ & _ & _ & _ & _ & Hother & _).
  exists w', o'. repeat (split; [assumption|]).
  apply Hother. unfold cancel_keys. rewrite !not_elem_of_cons.
  repeat (split; [discriminate|]). apply not_elem_of_nil.
Defined.

(* ===================================================================== *)
(** * Further properties: MATCH and the handlers *)
(* ===================================================================== *)

Lemma trade_data_fields {I : PyInterp} p ts h bt tx :
  let t := trade_data p ts h bt tx in
  t !! "orderId" = Some (PStr (m_order_id p)) /\
  t !! "maker" = Some (PStr (m_maker p)) /\
  t !! "taker" = Some (PStr (m_taker p)) /\
  t !! "amount" = Some (PFloat (m_matched_amount p)) /\
  t !! "price" = Some (PFloat (m_matched_price p)) /\
  t !! "dollarValue" = Some (PFloat (m_dollar_value p)) /\
  t !! "fee" = Some (PFloat (m_fee p)) /\
  t !! "tradeValue" = Some (PFloat (m_matched_amount p * m_matched_price p)%float) /\
  t !! "netValue" =
    Some (PFloat (m_matched_amount p * m_matched_price p - m_fee p)%float) /\
  t !! "height" = Some (PInt h) /\
  t !! "txId" = Some tx.
Proof. cbv zeta. unfold trade_data. repeat split; doc_lookup. Qed.

Section MatchMore.
Context {I : PyInterp}.

(** X8. A MATCH for an order id that the store does not hold changes
    nothing but the log: no order is written and no trade is recorded. *)
Theorem match_unknown_order_dropped w params h bt tx p :
  quiet w ->
  match_params params = Ok p ->
  the_order w (m_order_id p) = None ->
  apply_match params h bt tx w =
    (Ok tt, set_log (fun l => l ++ [ErrOrderNotFound MATCH_ORDER (m_order_id p)]) w).
Proof.
  intros (Hf & Hq & Ht) Hp Ho. unfold the_order in Ho.
  destruct w as [orders trades pe me ce ou ti fs clk jr lg].
  cbn [faults order_updates trade_inserts orders_collection] in *; subst.
  unfold apply_match, process_match_order_event.
  run_M. rewrite Hp. run_M. rewrite Ho. run_M. reflexivity.
Qed.

(** X9. A MATCH applied to an existing order appends exactly one trade,
    with the event's maker, taker, amount, price, dollar value and fee,
    tradeValue = amount * price and netValue = tradeValue - fee. *)
Theorem match_records_one_trade w params h bt tx p o
    filled original fill_value dollar_total fee_total fills :
  quiet w ->
  match_params params = Ok p ->
  the_order w (m_order_id p) = Some o ->
  accumulators o filled original fill_value dollar_total fee_total fills ->
  exists w' t,
    apply_match params h bt tx w = (Ok tt, w') /\
    trades_collection w' = trades_collection w ++ [t] /\
    t !! "orderId" = Some (PStr (m_order_id p)) /\
    t !! "maker" = Some (PStr (m_maker p)) /\
    t !! "taker" = Some (PStr (m_taker p)) /\
    t !! "amount" = Some (PFloat (m_matched_amount p)) /\
    t !! "price" = Some (PFloat (m_matched_price p)) /\
    t !! "dollarValue" = Some (PFloat (m_dollar_value p)) /\
    t !! "fee" = Some (PFloat (m_fee p)) /\
    t !! "tradeValue" = Some (PFloat (m_matched_amount p * m_matched_price p)%float) /\
    t !! "netValue" =
      Some (PFloat (m_matched_amount p * m_matched_price p - m_fee p)%float) /\
    t !! "height" = Some (PInt h) /\
    t !! "txId" = Some tx.
Proof.
  intros Hq Hp Ho Hacc.
  destruct (match_order_update_fields o p (extract_timestamp (m_order_time p)) h
              _ _ _ _ _ _ Hacc)
    as (upd & Hupd & _ & _ & _ & _ & _ & _ & _ & _ & _ & Hid & _).
  destruct (apply_match_quiet w params h bt tx p o upd Hq Hp Ho Hupd Hid)
    as (w' & Hrun & _ & _ & Ht & _).
  exists w', (trade_data p (extract_timestamp (m_order_time p)) h bt tx).
  split; [done|]. split; [done|]. apply trade_data_fields.
Qed.

(** Two MATCH events of one height for the same order, then the commit. *)
Definition apply_two_matches (params1 params2 : PyVal) (height : Z)
    (bt1 tx1 bt2 tx2 : PyVal) : M unit :=
  process_match_order_event params1 height bt1 tx1;;
  process_match_order_event params2 height bt2 tx2;;
  execute_batch_updates.

(** X10. Two MATCH events of one height for the same order are both
    computed from the order as stored before the height: after the commit
    the order holds the second fill only (filled + amount2, one more fill,
    fees + fee2), while both trades are recorded. *)
Theorem second_match_of_a_height_overwrites_first w params1 params2 h bt1 tx1 bt2 tx2
    p1 p2 o filled original fill_value dollar_total fee_total fills :
  quiet w ->
  match_params params1 = Ok p1 ->
  match_params params2 = Ok p2 ->
  m_order_id p1 = m_order_id p2 ->
  the_order w (m_order_id p2) = Some o ->
  accumulators o filled original fill_value dollar_total fee_total fills ->
  exists w' o' t1 t2,
    apply_two_matches params1 params2 h bt1 tx1 bt2 tx2 w = (Ok tt, w') /\
    the_order w' (m_order_id p2) = Some o' /\
    o' !! "filledAmount" = Some (PFloat (filled + m_matched_amount p2)%float) /\
    o' !! "numberOfFills" = Some (PInt (fills + 1)) /\
    o' !! "totalFees" = Some (PFloat (fee_total + m_fee p2)%float) /\
    trades_collection w' = trades_collection w ++ [t1; t2] /\
    t1 !! "amount" = Some (PFloat (m_matched_amount p1)) /\
    t2 !! "amount" = Some (PFloat (m_matched_amount p2)).
Proof.
  intros Hq Hp1 Hp2 Hid Ho Hacc.
  destruct (match_order_update_fields o p1 (extract_timestamp (m_order_time p1)) h
              _ _ _ _ _ _ Hacc)
    as (upd1 & Hupd1 & _ & _ & _ & _ & _ & _ & _ & _ & _ & Hid1 & _).
  destruct (match_order_update_fields o p2 (extract_timestamp (m_order_time p2)) h
              _ _ _ _ _ _ Hacc)
    as (upd2 & Hupd2 & Hfilled & _ & _ & _ & Hfees & _ & _ & _ & Hfills & Hid2 & _).
  destruct Hq as (Hf & Hqu & Ht).
  assert (Ho1 : the_order w (m_order_id p1) = Some o) by (by rewrite Hid).
  unfold apply_two_matches.
  rewrite M_bind_eq, (process_match_quiet _ _ _ _ _ _ _ _ Hf Hp1 Ho1 Hupd1).
  rewrite M_bind_eq, (process_match_quiet _ _ _ _ _ p2 o upd2); [|done|done|done|done].
  unfold the_order in *. rewrite Hid in *.
  destruct (update_first_find [("orderId", m_order_id p2)] (on_match (SetFields upd1)) _ _ Ho)
    as (docs1 & Hup1 & Hfind1).
  { cbn [on_match]. rewrite matches_order_id, field_is_union by done.
    rewrite <- matches_order_id. by apply find_some in Ho as [_ Ho]. }
  destruct (update_first_find [("orderId", m_order_id p2)] (on_match (SetFields upd2)) _ _ Hfind1)
    as (docs2 & Hup2 & Hfind2).
  { cbn [on_match]. rewrite matches_order_id, !field_is_union by done.
    rewrite <- matches_order_id. by apply find_some in Ho as [_ Ho]. }
  destruct w as [orders trades pe me ce ou ti fs clk jr lg].
  cbn [faults order_updates trade_inserts orders_collection trades_collection] in *; subst.
  run_M. cbn [app]. unfold apply_update. rewrite Hup1. run_M. rewrite Hup2. run_M.
  eexists _, _, _, _. split; [reflexivity|]. cbn [on_match] in Hfind2.
  split; [exact Hfind2|].
  repeat (split; [by apply lookup_union_Some_l|]).
  split; [reflexivity|]. split; unfold trade_data; doc_lookup.
Qed.
End MatchMore.

Section Handlers.
Context {I : PyInterp}.

Lemma process_place_ok w params h bt tx u :
  place_order_update params h bt tx = Ok u ->
  process_place_order_event params h bt tx w =
    (Ok tt, set_order_updates (fun q => q ++ [u]) w).
Proof.
  intros Hu. unfold process_place_order_event. run_M. rewrite Hu. reflexivity.
Qed.

Lemma process_match_unknown w params h bt tx p :
  faults w = [] ->
  match_params params = Ok p ->
  the_order w (m_order_id p) = None ->
  process_match_order_event params h bt tx w =
    (Ok tt, set_log (fun l => l ++ [ErrOrderNotFound MATCH_ORDER (m_order_id p)]) w).
Proof.
  intros Hf Hp Ho. unfold the_order in Ho.
  destruct w as [orders trades pe me ce ou ti fs clk jr lg].
  cbn [faults orders_collection] in *; subst.
  unfold process_match_order_event. run_M. rewrite Hp. run_M. rewrite Ho. reflexivity.
Qed.

(** The handlers only queue and log. *)
Definition only_queues (w w' : World) : Prop :=
  orders_collection w' = orders_collection w /\
  trades_collection w' = trades_collection w /\
  journal w' = journal w.

Lemma process_place_only_queues w params h bt tx :
  exists w', process_place_order_event params h bt tx w = (Ok tt, w') /\ only_queues w w'.
Proof.
  unfold process_place_order_event. run_M.
  destruct (place_order_update params h bt tx); eexists; (split; [reflexivity|]); done.
Qed.

Lemma process_match_only_queues w params h bt tx :
  exists w', process_match_order_event params h bt tx w = (Ok tt, w') /\ only_queues w w'.
Proof.
  destruct w as [orders trades pe me ce ou ti fs clk jr lg].
  unfold process_match_order_event. run_M.
  destruct (match_params params) as [p|e]; [|eexists; (split; [reflexivity|]); done].
  destruct fs as [|[] fs]; try (eexists; (split; [reflexivity|]); done).
  - destruct (find _ orders) as [o|]; [|eexists; (split; [reflexivity|]); done].
    destruct (match_order_update _ _ _ _); eexists; (split; [reflexivity|]); done.
  - destruct (find _ orders) as [o|]; [|eexists; (split; [reflexivity|]); done].
    destruct (match_order_update _ _ _ _); eexists; (split; [reflexivity|]); done.
Qed.

Lemma process_cancel_only_queues w params h bt tx :
  exists w', process_cancel_order_event params h bt tx w = (Ok tt, w') /\ only_queues w w'.
Proof.
  destruct w as [orders trades pe me ce ou ti fs clk jr lg].
  unfold process_cancel_order_event. run_M.
  destruct (cancel_params params) as [p|e]; [|eexists; (split; [reflexivity|]); done].
  destruct fs as [|[] fs]; try (eexists; (split; [reflexivity|]); done).
  - destruct (find _ orders) as [o|]; [|eexists; (split; [reflexivity|]); done].
    destruct (ne_str _ _); [eexists; (split; [reflexivity|]); done|].
    destruct (py_bool bt); [|destruct clk]; eexists; (split; [reflexivity|]); done.
  - destruct (find _ orders) as [o|]; [|eexists; (split; [reflexivity|]); done].
    destruct (ne_str _ _); [eexists; (split; [reflexivity|]); done|].
    destruct (py_bool bt); [|destruct clk]; eexists; (split; [reflexivity|]); done.
Qed.

Definition apply_place_then_match (place_event match_event : PyVal) (height : Z)
    (bt1 tx1 bt2 tx2 : PyVal) : M unit :=
  process_place_order_event place_event height bt1 tx1;;
  process_match_order_event match_event height bt2 tx2;;
  execute_batch_updates.


(** X11. A MATCH at the height of the PLACE that creates its order is
    dropped: the handler reads the store, where the queued order is not
    yet written; the order is created active with nothing filled, no trade
    is recorded and the log receives the error. *)
Theorem match_of_the_placing_height_is_dropped w place_event match_event h
    bt1 tx1 bt2 tx2 v1 p :
  quiet w ->
  validate_place_order_params place_event = Ok Valid ->
  getitem place_event 1 = Ok v1 ->
  match_params match_event = Ok p ->
  m_order_id p = py_str v1 ->
  the_order w (py_str v1) = None ->
  exists w' o,
    apply_place_then_match place_event match_event h bt1 tx1 bt2 tx2 w = (Ok tt, w') /\
    orders_collection w' = orders_collection w ++ [o] /\
    the_order w' (py_str v1) = Some o /\
    o !! "status" = Some (PStr "active") /\
    o !! "filledAmount" = Some (PFloat 0) /\
    trades_collection w' = trades_collection w /\
    log w' = log w ++ [ErrOrderNotFound MATCH_ORDER (py_str v1)].
Proof.
  intros (Hf & Hq & Ht) Hvalid Hv1 Hp Hid Hnone.
  destruct (validate_place_parses place_event h bt1 tx1 Hvalid) as (u & Hu).
  destruct (place_order_update_shape _ _ _ _ _ Hu)
    as (v0 & v1' & v2 & v3 & v6 & v7 & a & pr & d & data
        & _ & Hv1' & _ & _ & _ & _ & _ & _ & _ & -> & Hplaced).
  assert (v1' = v1) as -> by congruence.
  unfold apply_place_then_match.
  rewrite M_bind_eq, (process_place_ok _ _ _ _ _ _ Hu).
  rewrite M_bind_eq, (process_match_unknown _ _ _ _ _ p); [|done|done|by rewrite Hid].
  rewrite Hid. unfold the_order in *.
  destruct w as [orders trades pe me ce ou ti fs clk jr lg].
  cbn [faults order_updates trade_inserts orders_collection trades_collection log] in *; subst.
  run_M. cbn [app]. rewrite (apply_update_absent _ _ _ Hnone). run_M.
  eexists _, _. split; [reflexivity|]. split; [reflexivity|].
  destruct Hplaced as (Pid & _ & _ & _ & _ & Pfilled & _ & Pstatus & _).
  split. { rewrite (find_app_None _ _ _ Hnone). by rewrite (matches_inserted _ _ _ Pid). }
  cbn [update_fields]. repeat (split; [by apply lookup_union_Some_l|]). done.
Qed.

(** X12. The three handlers never raise and never write to the store,
    whatever the parameters and whatever failures the store has
    scheduled: they leave both collections and the journal of write calls
    as they were (they only queue and log). *)
Theorem handlers_only_queue w params h bt tx :
  (exists w', process_place_order_event params h bt tx w = (Ok tt, w') /\ only_queues w w') /\
  (exists w', process_match_order_event params h bt tx w = (Ok tt, w') /\ only_queues w w') /\
  (exists w', process_cancel_order_event params h bt tx w = (Ok tt, w') /\ only_queues w w').
Proof.
  split; [apply process_place_only_queues|].
  split; [apply process_match_only_queues|apply process_cancel_only_queues].
Qed.

End Handlers.

(** ** Examples for MATCH and the handlers *)

Definition match_o1_full_params : MatchParams :=
  {| m_maker := "b"; m_taker := "a"; m_order_id := "o1";
     m_matched_amount := 100; m_matched_price := 2.1;
     m_is_ask := false; m_order_time := time_0; m_pair := PStr "X-Y";
     m_dollar_value := 210; m_fee := 0.1 |}.

Lemma match_o1_full_parses :
  match_params (I := example_interp) match_o1_full = Ok match_o1_full_params.
Proof. vm_refl. Qed.

Lemma match_unknown_order_dropped_witness :
  quiet empty_world /\
  the_order empty_world "o1" = None /\
  apply_match (I := example_interp) match_o1 11 PNone (PStr "tx2") empty_world =
    (Ok tt, set_log (fun l => l ++ [ErrOrderNotFound MATCH_ORDER "o1"]) empty_world).
Proof.
  split; [exact empty_world_quiet|]. split; [reflexivity|].
  exact (match_unknown_order_dropped (I := example_interp) empty_world match_o1 11
           PNone (PStr "tx2") match_o1_params empty_world_quiet match_o1_parses eq_refl).
Defined.

Lemma match_records_one_trade_witness :
  quiet world_o1 /\
  exists w' t,
    apply_match (I := example_interp) match_o1 11 PNone (PStr "tx2") world_o1 = (Ok tt, w') /\
    trades_collection w' = trades_collection world_o1 ++ [t] /\
    t !! "maker" = Some (PStr "b") /\
    t !! "taker" = Some (PStr "a") /\
    t !! "amount" = Some (PFloat 40) /\
    t !! "tradeValue" = Some (PFloat (40 * 2.1)%float) /\
    t !! "netValue" = Some (PFloat (40 * 2.1 - 0.1)%float).
Proof.
  split; [exact world_o1_quiet|].
  destruct (match_records_one_trade (I := example_interp) world_o1 match_o1 11 PNone
              (PStr "tx2") match_o1_params order_o1 _ _ _ _ _ _
              world_o1_quiet match_o1_parses world_o1_order order_o1_accumulators)
    as (w' & t & Hrun & Ht & _ & Hmaker & Htaker & Hamount & _ & _ & _ & Hvalue & Hnet & _).
  exists w', t. repeat (split; [assumption|]). assumption.
Defined.

(** The MATCH of 100 and then the MATCH of 40, both at height 11: the
    order ends with 40 filled, and one fill. *)
Lemma second_match_of_a_height_overwrites_first_witness :
  quiet world_o1 /\
  exists w' o' t1 t2,
    apply_two_matches (I := example_interp) match_o1_full match_o1 11
      PNone (PStr "tx2") PNone (PStr "tx3") world_o1 = (Ok tt, w') /\
    the_order w' "o1" = Some o' /\
    o' !! "filledAmount" = Some (PFloat (0 + 40)%float) /\
    o' !! "numberOfFills" = Some (PInt 1) /\
    trades_collection w' = trades_collection world_o1 ++ [t1; t2] /\
    t1 !! "amount" = Some (PFloat 100) /\
    t2 !! "amount" = Some (PFloat 40).
Proof.
  split; [exact world_o1_quiet|].
  destruct (second_match_of_a_height_overwrites_first (I := example_interp) world_o1
              match_o1_full match_o1 11 PNone (PStr "tx2") PNone (PStr "tx3")
              match_o1_full_params match_o1_params order_o1 _ _ _ _ _ _
              world_o1_quiet match_o1_full_parses match_o1_parses eq_refl
              world_o1_order order_o1_accumulators)
    as (w' & o' & t1 & t2 & Hrun & Ho' & Hfilled & Hfills & _ & Ht & Ht1 & Ht2).
  exists w', o', t1, t2. repeat (split; [assumption|]). assumption.
Defined.

Lemma match_of_the_placing_height_is_dropped_witness :
  quiet empty_world /\
  exists w' o,
    apply_place_then_match (I := example_interp) place_o1 match_o1 10
      PNone (PStr "tx1") PNone (PStr "tx2") empty_world = (Ok tt, w') /\
    orders_collection w' = [o] /\
    o !! "status" = Some (PStr "active") /\
    o !! "filledAmount" = Some (PFloat 0) /\
    trades_collection w' = [] /\
    log w' = [ErrOrderNotFound MATCH_ORDER "o1"].
Proof.
  split; [exact empty_world_quiet|].
  destruct (match_of_the_placing_height_is_dropped (I := example_interp) empty_world
              place_o1 match_o1 10 PNone (PStr "tx1") PNone (PStr "tx2") (PStr "o1")
              match_o1_params empty_world_quiet place_o1_valid eq_refl match_o1_parses
              eq_refl eq_refl)
    as (w' & o & Hrun & Horders & _ & Hstatus & Hfilled & Htrades & Hlog).
  exists w', o. repeat (split; [assumption|]). assumption.
Defined.

(* ===================================================================== *)
(** * Further properties: the commit of a height *)
(* ===================================================================== *)

(** The journal entry of a queued update that went through. *)
Definition update_call (u : QueuedUpdate) : StoreCall :=
  CallUpdateOne (q_filter u) (q_update u) (q_upsert u).

(** The journal entry of the insert of the queued trades. *)
Definition insert_call (trades : list Doc) : list (StoreCall * bool) :=
  match trades with
  | [] => []
  | _ => [(CallInsertMany trades, true)]
  end.

(** What a turn of the commit leaves alone. *)
Definition same_queues (w w' : World) : Prop :=
  order_updates w' = order_updates w /\
  trade_inserts w' = trade_inserts w /\
  trades_collection w' = trades_collection w.

Lemma execute_update_cases u w :
  (exists w', execute_update u w = (Ok tt, w') /\
     same_queues w w' /\
     journal w' = journal w ++ [(update_call u, true)] /\
     exists l, log w' = log w ++ l) \/
  (exists w', execute_update u w = (Raise PyMongoError, w') /\
     same_queues w w' /\
     orders_collection w' = orders_collection w /\
     journal w' = journal w ++ [(update_call u, false)] /\
     log w' = log w).
Proof.
  destruct w as [orders trades pe me ce ou ti fs clk jr lg].
  destruct u as [flt upd [|]]; unfold update_call; cbn [q_filter q_update q_upsert].
  - destruct fs as [|[|] fs]; [left|right|left]; run_M;
      eexists; (split; [reflexivity|]); repeat split;
      try (exists []; symmetry; apply app_nil_r).
  - destruct fs as [|[|] fs]; [left|right|left]; run_M;
      try (eexists; (split; [reflexivity|]); by repeat split).
    + destruct (apply_update flt upd false orders) as [docs [|n]]; cbn [fst snd];
        eexists; (split; [reflexivity|]); repeat split; cbn [log];
        first [by exists [WarnNoOrderFound flt] | exists []; symmetry; apply app_nil_r].
    + destruct (apply_update flt upd false orders) as [docs [|n]]; cbn [fst snd];
        eexists; (split; [reflexivity|]); repeat split; cbn [log];
        first [by exists [WarnNoOrderFound flt] | exists []; symmetry; apply app_nil_r].
Qed.

Lemma same_queues_trans w1 w2 w3 :
  same_queues w1 w2 -> same_queues w2 w3 -> same_queues w1 w3.
Proof. unfold same_queues. intros (-> & -> & ->) (-> & -> & ->). done. Qed.

(** The loop over the queued updates: all sent, or the sent ones followed
    by the one that failed. *)
Lemma for_each_execute_update us w :
  (exists w', for_each execute_update us w = (Ok tt, w') /\
     same_queues w w' /\
     journal w' = journal w ++ map (fun u => (update_call u, true)) us /\
     exists l, log w' = log w ++ l) \/
  (exists w' us1 u us2, for_each execute_update us w = (Raise PyMongoError, w') /\
     us = us1 ++ u :: us2 /\
     same_queues w w' /\
     journal w' = journal w ++ map (fun u => (update_call u, true)) us1
                    ++ [(update_call u, false)] /\
     exists l, log w' = log w ++ l).
Proof.
  revert w. induction us as [|u us IH]; intros w.
  - left. exists w. split; [reflexivity|]. split; [done|].
    split; [by rewrite app_nil_r|]. exists []. by rewrite app_nil_r.
  - cbn [for_each]. rewrite M_bind_eq.
    destruct (execute_update_cases u w)
      as [(w1 & -> & Hq1 & Hj1 & l1 & Hl1)|(w1 & -> & Hq1 & _ & Hj1 & Hl1)].
    + destruct (IH w1) as [(w2 & -> & Hq2 & Hj2 & l2 & Hl2)
                          |(w2 & us1 & u' & us2 & -> & -> & Hq2 & Hj2 & l2 & Hl2)].
      * left. exists w2. split; [done|]. split; [by eapply same_queues_trans|].
        split; [by rewrite Hj2, Hj1, <- app_assoc|].
        exists (l1 ++ l2). by rewrite Hl2, Hl1, <- app_assoc.
      * right. exists w2, (u :: us1), u', us2. split; [done|]. split; [done|].
        split; [by eapply same_queues_trans|].
        split; [by rewrite Hj2, Hj1, <- app_assoc|].
        exists (l1 ++ l2). by rewrite Hl2, Hl1, <- app_assoc.
    + right. exists w1, [], u, us. split; [done|]. split; [done|]. split; [done|].
      split; [done|]. exists []. by rewrite app_nil_r.
Qed.

Lemma insert_many_cases ts w :
  (exists w', insert_many ts w = (Ok tt, w') /\
     order_updates w' = order_updates w /\
     trade_inserts w' = trade_inserts w /\
     trades_collection w' = trades_collection w ++ ts /\
     journal w' = journal w ++ [(CallInsertMany ts, true)] /\
     log w' = log w) \/
  (exists w', insert_many ts w = (Raise PyMongoError, w') /\
     same_queues w w' /\
     journal w' = journal w ++ [(CallInsertMany ts, false)] /\
     log w' = log w).
Proof.
  destruct w as [orders trades pe me ce ou ti fs clk jr lg].
  destruct fs as [|[|] fs]; [left|right|left]; run_M;
    eexists; (split; [reflexivity|]); by repeat split.
Qed.

Lemma log_and_raise {A} e entry w :
  (logger entry ≫= fun _ => raise (A := A) e) w =
    (Raise e, set_log (fun l => l ++ [entry]) w).
Proof. reflexivity. Qed.

Section Commit.

(** The two stages of [execute_batch_updates]. *)
Definition send_order_updates : M unit :=
  updates ← gets order_updates;
  match updates with
  | [] => mret tt
  | _ => for_each execute_update updates;;
         modify (set_order_updates (fun _ => []))
  end.

Definition send_trade_inserts : M unit :=
  trades ← gets trade_inserts;
  match trades with
  | [] => mret tt
  | _ => insert_many trades;;
         modify (set_trade_inserts (fun _ => []))
  end.

Lemma execute_batch_updates_stages :
  execute_batch_updates =
    try_except (send_order_updates;; send_trade_inserts)
               (fun e => logger (ErrBatch e);; raise e).
Proof. reflexivity. Qed.

Lemma send_order_updates_cases w :
  (exists w', send_order_updates w = (Ok tt, w') /\
     order_updates w' = [] /\
     trade_inserts w' = trade_inserts w /\
     trades_collection w' = trades_collection w /\
     journal w' = journal w ++ map (fun u => (update_call u, true)) (order_updates w) /\
     exists l, log w' = log w ++ l) \/
  (exists w' us1 u us2, send_order_updates w = (Raise PyMongoError, w') /\
     order_updates w = us1 ++ u :: us2 /\
     same_queues w w' /\
     journal w' = journal w ++ map (fun u => (update_call u, true)) us1
                    ++ [(update_call u, false)] /\
     exists l, log w' = log w ++ l).
Proof.
  unfold send_order_updates. rewrite M_bind_eq. unfold gets. cbv beta iota.
  destruct (order_updates w) as [|u us] eqn:Hou.
  - left. exists w. split; [reflexivity|]. split; [done|]. split; [done|].
    split; [done|]. split; [by rewrite app_nil_r|]. exists []. by rewrite app_nil_r.
  - rewrite M_bind_eq.
    destruct (for_each_execute_update (u :: us) w)
      as [(w1 & -> & (Hq1 & Hq2 & Hq3) & Hj & l & Hl)
         |(w1 & us1 & u' & us2 & -> & Hus & Hq & Hj & l & Hl)].
    + left. eexists. split; [reflexivity|].
      destruct w1. cbn in *. do 4 (split; [done|]). by exists l.
    + right. exists w1, us1, u', us2. do 4 (split; [done|]). by exists l.
Qed.

Lemma send_trade_inserts_cases w :
  (exists w', send_trade_inserts w = (Ok tt, w') /\
     order_updates w' = order_updates w /\
     trade_inserts w' = [] /\
     journal w' = journal w ++ insert_call (trade_inserts w) /\
     log w' = log w) \/
  (exists w', send_trade_inserts w = (Raise PyMongoError, w') /\
     same_queues w w' /\
     journal w' = journal w ++ [(CallInsertMany (trade_inserts w), false)] /\
     log w' = log w).
Proof.
  unfold send_trade_inserts. rewrite M_bind_eq. unfold gets. cbv beta iota.
  destruct (trade_inserts w) as [|t ts] eqn:Hti.
  - left. exists w. split; [reflexivity|]. repeat (split; [done|]).
    split; [by rewrite app_nil_r|done].
  - rewrite M_bind_eq.
    destruct (insert_many_cases (t :: ts) w)
      as [(w1 & -> & Hq1 & Hq2 & Hq3 & Hj & Hl)|(w1 & -> & Hq & Hj & Hl)].
    + left. eexists. split; [reflexivity|]. destruct w1. cbn in *. by repeat split.
    + right. exists w1. split; [reflexivity|]. done.
Qed.

(** X13. When [execute_batch_updates] returns, every queued order update
    has been sent, in queue order, before the one insert of the queued
    trades, every call went through, and both queues are empty. *)
Theorem batch_success_clears_queues w w' :
  execute_batch_updates w = (Ok tt, w') ->
  order_updates w' = [] /\
  trade_inserts w' = [] /\
  journal w' = journal w ++ map (fun u => (update_call u, true)) (order_updates w)
                 ++ insert_call (trade_inserts w).
Proof.
  rewrite execute_batch_updates_stages. unfold try_except. rewrite M_bind_eq.
  destruct (send_order_updates_cases w)
    as [(w1 & -> & Hou & Hti & _ & Hj1 & _)|(w1 & ? & ? & ? & -> & _)]; [|done].
  destruct (send_trade_inserts_cases w1)
    as [(w2 & -> & Hou2 & Hti2 & Hj2 & _)|(w2 & -> & _)]; [|done].
  intros [= <-]. split; [congruence|]. split; [done|].
  by rewrite Hj2, Hj1, Hti, <- app_assoc.
Qed.


End Commit.

(** ** Examples for the commit *)

(** The processor after the handler of the PLACE of "o1", before the commit. *)
Definition queued_o1 : World :=
  (process_place_order_event (I := example_interp) place_o1 10 PNone (PStr "tx1")
     empty_world).2.



Lemma queued_o1_commits : execute_batch_updates queued_o1 = (Ok tt, world_o1).
Proof. vm_refl. Qed.


Lemma batch_success_clears_queues_witness :
  execute_batch_updates queued_o1 = (Ok tt, world_o1) /\
  order_updates world_o1 = [] /\
  trade_inserts world_o1 = [] /\
  journal world_o1 =
    journal queued_o1 ++ map (fun u => (update_call u, true)) (order_updates queued_o1)
      ++ insert_call (trade_inserts queued_o1).
Proof.
  split; [exact queued_o1_commits|].
  exact (batch_success_clears_queues queued_o1 world_o1 queued_o1_commits).
Defined.


(* ===================================================================== *)
(** * Further properties: the watermark *)
(* ===================================================================== *)

(** The watermark document as the store returns it. *)
Definition watermark (w : World) : option Doc :=
  List.find (matches last_order_height) (orders_collection w).

(** The write that [update_last_processed_height] sends. *)
Definition watermark_call (height : Z) : StoreCall :=
  CallUpdateOne last_order_height (SetFields {[ "value" := PInt height ]}) true.

Lemma matches_last_order_height (d : Doc) :
  matches last_order_height d = field_is d "_id" "last_order_height".
Proof. cbn. apply andb_true_r. Qed.

(** After the upsert of the watermark, the store returns a watermark
    document with the value written. *)
Lemma apply_update_watermark h docs :
  exists d,
    List.find (matches last_order_height)
      (apply_update last_order_height (SetFields {[ "value" := PInt h ]}) true docs).1 = Some d /\
    d !! "value" = Some (PInt h).
Proof.
  unfold apply_update.
  destruct (List.find (matches last_order_height) docs) as [o|] eqn:Hfind.
  - destruct (update_first_find last_order_height
                (on_match (SetFields {[ "value" := PInt h ]})) docs o Hfind)
      as (docs' & -> & Hfind').
    { cbn [on_match]. rewrite matches_last_order_height, field_is_union by done.
      rewrite <- matches_last_order_height. by apply find_some in Hfind as [_ Hfind]. }
    eexists. split; [exact Hfind'|]. cbn [on_match].
    apply lookup_union_Some_l. apply lookup_singleton_eq.
  - rewrite (update_first_None _ _ _ Hfind). cbn [fst].
    rewrite (find_app_None _ _ _ Hfind). cbn [List.find update_fields].
    eexists. split; [reflexivity|].
    apply lookup_union_Some_l. apply lookup_singleton_eq.
Qed.

(** X15. A failed write of the watermark is swallowed:
    [update_last_processed_height] returns normally, the store is as it
    was, and only the log tells. *)
Theorem watermark_write_failure_is_swallowed w h fs :
  faults w = true :: fs ->
  update_last_processed_height h w =
    (Ok tt, set_log (fun l => l ++ [ErrLastHeightWrite PyMongoError])
              (set_journal (fun j => j ++ [(watermark_call h, false)])
                 (set_faults (fun _ => fs) w))).
Proof.
  intros Hf. destruct w as [orders trades pe me ce ou ti fs' clk jr lg].
  cbn [faults] in Hf; subst. reflexivity.
Qed.

(** X16. The watermark round trip: without a store failure, the height
    written by [update_last_processed_height] is the one that
    [get_last_processed_height] returns next, whatever the store held. *)
Theorem watermark_write_then_read w h :
  faults w = [] ->
  exists w1,
    update_last_processed_height h w = (Ok tt, w1) /\
    journal w1 = journal w ++ [(watermark_call h, true)] /\
    trades_collection w1 = trades_collection w /\
    get_last_processed_height w1 = (Ok (PInt h), w1).
Proof.
  intros Hf. destruct w as [orders trades pe me ce ou ti fs clk jr lg].
  cbn [faults] in Hf; subst.
  destruct (apply_update_watermark h orders) as (d & Hfind & Hvalue).
  unfold update_last_processed_height, get_last_processed_height. run_M.
  destruct (apply_update _ _ true orders) as [docs n]. cbn [fst] in Hfind.
  eexists. split; [reflexivity|]. cbn [journal trades_collection].
  split; [reflexivity|]. split; [reflexivity|]. run_M. rewrite Hfind, Hvalue.
  reflexivity.
Qed.

(** X17. [get_last_processed_height] never raises and never writes; it
    returns 0 unless the read succeeds and finds a watermark document with
    a value, which it then returns. A failed read therefore restarts the
    processing from height 0. *)
Theorem watermark_read_defaults_to_zero w :
  exists v w',
    get_last_processed_height w = (Ok v, w') /\
    orders_collection w' = orders_collection w /\
    trades_collection w' = trades_collection w /\
    journal w' = journal w /\
    (head (faults w) = Some true -> v = PInt 0) /\
    (watermark w = None -> v = PInt 0) /\
    (forall d, watermark w = Some d -> d !! "value" = None -> v = PInt 0) /\
    (forall d x, head (faults w) <> Some true -> watermark w = Some d ->
                 d !! "value" = Some x -> v = x).
Proof.
  unfold watermark. destruct w as [orders trades pe me ce ou ti fs clk jr lg].
  unfold get_last_processed_height. run_M.
  destruct fs as [|[|] fs]; cbn [hd_error head].
  - destruct (find _ orders) as [d|] eqn:Hfind.
    + destruct (d !! "value") as [x|] eqn:Hx; eexists _, _; (split; [reflexivity|]);
        repeat (split; [done|]); repeat split; try done; intros; simplify_eq; congruence.
    + eexists _, _; (split; [reflexivity|]); repeat (split; [done|]); repeat split; done.
  - eexists _, _; (split; [reflexivity|]); repeat (split; [done|]); repeat split; done.
  - destruct (find _ orders) as [d|] eqn:Hfind.
    + destruct (d !! "value") as [x|] eqn:Hx; eexists _, _; (split; [reflexivity|]);
        repeat (split; [done|]); repeat split; try done; intros; simplify_eq; congruence.
    + eexists _, _; (split; [reflexivity|]); repeat (split; [done|]); repeat split; done.
Qed.

Lemma watermark_write_failure_is_swallowed_witness :
  faults (set_faults (fun _ => [true]) empty_world) = [true] /\
  update_last_processed_height 12 (set_faults (fun _ => [true]) empty_world) =
    (Ok tt, set_log (fun l => l ++ [ErrLastHeightWrite PyMongoError])
              (set_journal (fun j => j ++ [(watermark_call 12, false)])
                 (set_faults (fun _ => [])
                    (set_faults (fun _ => [true]) empty_world)))).
Proof.
  split; [reflexivity|].
  exact (watermark_write_failure_is_swallowed
           (set_faults (fun _ => [true]) empty_world) 12 [] eq_refl).
Defined.

Lemma watermark_write_then_read_witness :
  faults empty_world = [] /\
  exists w1,
    update_last_processed_height 12 empty_world = (Ok tt, w1) /\
    get_last_processed_height w1 = (Ok (PInt 12), w1).
Proof.
  split; [reflexivity|].
  destruct (watermark_write_then_read empty_world 12 eq_refl) as (w1 & Hw & _ & _ & Hr).
  exists w1. split; assumption.
Defined.

(* ===================================================================== *)
(** * Further properties: the order of processing *)
(* ===================================================================== *)

(** The events of a list that carry a given type, in the list's order. *)
Definition of_priority (n : nat) (events : list RawEvent) : list RawEvent :=
  List.filter (fun x => Nat.eqb (event_priority (ev_type x)) n) events.

Lemma insert_sorted_first {A} (key : A -> nat) x l :
  Forall (fun y => key x <= key y) l ->
  insert_sorted Nat.leb key x l = x :: l.
Proof.
  destruct l as [|y l]; [done|]. intros H. cbn.
  apply Forall_cons in H as [H _]. by apply Nat.leb_le in H as ->.
Qed.

Lemma insert_sorted_skip {A} (key : A -> nat) x l1 l2 :
  Forall (fun y => key y < key x) l1 ->
  insert_sorted Nat.leb key x (l1 ++ l2) = l1 ++ insert_sorted Nat.leb key x l2.
Proof.
  induction l1 as [|y l1 IH]; [done|]. intros H.
  apply Forall_cons in H as [Hy H]. cbn.
  apply Nat.leb_gt in Hy as ->. by rewrite IH.
Qed.

Lemma of_priority_keys n events :
  Forall (fun y => event_priority (ev_type y) = n) (of_priority n events).
Proof.
  apply List.Forall_forall. intros y Hy. apply filter_In in Hy as [_ Hy].
  by apply Nat.eqb_eq.
Qed.

Lemma event_priority_cases t :
  event_priority t = 0 \/ event_priority t = 1 \/ event_priority t = 2 \/
  event_priority t = 999.
Proof. destruct t as [[| |]|]; cbn; auto. Qed.

Ltac by_priority :=
  repeat (apply Forall_app; split);
  (eapply Forall_impl; [eassumption|]); cbn beta; intros ? ->;
  try match goal with
      | E : event_priority (ev_type ?x) = _ |- context [event_priority (ev_type ?x)] =>
          rewrite E
      end;
  first [apply Nat.leb_le; vm_compute; reflexivity
        |apply Nat.ltb_lt; vm_compute; reflexivity].

(** X18. Within a height the events are processed by type: the PLACE
    events, then the MATCH events, then the CANCEL events, then the events
    of no known type, each group in the order in which it was listed. *)
Theorem sort_events_groups_by_type events :
  sort_events events =
    of_priority 0 events ++ of_priority 1 events ++ of_priority 2 events
      ++ of_priority 999 events.
Proof.
  unfold sort_events, stable_sort.
  induction events as [|x events IH]; [done|]. cbn [foldr]. rewrite IH. clear IH.
  pose proof (of_priority_keys 0 events) as H0.
  pose proof (of_priority_keys 1 events) as H1.
  pose proof (of_priority_keys 2 events) as H2.
  pose proof (of_priority_keys 999 events) as H3.
  unfold of_priority at 5 6 7 8. cbn [List.filter].
  fold (of_priority 0 events) (of_priority 1 events) (of_priority 2 events)
       (of_priority 999 events).
  destruct (event_priority_cases (ev_type x)) as [E|[E|[E|E]]]; rewrite E; cbn [Nat.eqb];
    rewrite <- ?app_comm_cons;
    repeat (rewrite insert_sorted_skip by by_priority; f_equal);
    apply insert_sorted_first; rewrite E; by_priority.
Qed.

(** The events of a list that are at a given height, in the list's order. *)
Definition at_height (h : Z) (events : list RawEvent) : list RawEvent :=
  List.filter (fun e => bool_decide (ev_height e = Some h)) events.

Lemma organize_cons t e events m :
  organize t (e :: events) m =
    organize t events
      match ev_height e with
      | Some height => <[height := default [] (m !! height) ++ [with_type t e]]> m
      | None => m
      end.
Proof. reflexivity. Qed.

(** One loop of [fetch_and_organize_events] appends, at each height, the
    events of that height in the order of the list. *)
Lemma organize_lookup t events m h :
  default [] (organize t events m !! h) =
    default [] (m !! h) ++ map (with_type t) (at_height h events).
Proof.
  revert m. induction events as [|e events IH]; intros m.
  - cbn. by rewrite app_nil_r.
  - rewrite organize_cons, IH. unfold at_height. cbn [List.filter].
    destruct (ev_height e) as [h'|] eqn:He.
    + destruct (decide (h' = h)) as [->|Hne].
      * rewrite lookup_insert_eq, bool_decide_eq_true_2 by done. cbn [default from_option map id].
        by rewrite <- app_assoc.
      * rewrite lookup_insert_ne, bool_decide_eq_false_2 by congruence. done.
    + by rewrite bool_decide_eq_false_2.
Qed.

Lemma organize_None t events m h :
  organize t events m !! h = None <-> m !! h = None /\ at_height h events = [].
Proof.
  revert m. induction events as [|e events IH]; intros m.
  - cbn. tauto.
  - rewrite organize_cons, IH. unfold at_height. cbn [List.filter].
    destruct (ev_height e) as [h'|] eqn:He.
    + destruct (decide (h' = h)) as [->|Hne].
      * rewrite lookup_insert_eq, bool_decide_eq_true_2 by done.
        split; [by intros [? _]|by intros [_ ?]].
      * by rewrite lookup_insert_ne, bool_decide_eq_false_2 by congruence.
    + by rewrite bool_decide_eq_false_2.
Qed.

(** X19. [events_by_height] holds, at each height, the PLACE events of
    that height, then its MATCH events, then its CANCEL events, each group
    in fetched order and with its type set; a height is a key exactly when
    an event has it, and events without a height are left out. *)
Theorem events_of_a_height_in_type_order (place mtch cancel : list RawEvent) (h : Z) :
  let events_by_height :=
    organize CANCEL_ORDER cancel (organize MATCH_ORDER mtch (organize PLACE_ORDER place ∅)) in
  default [] (events_by_height !! h) =
    map (with_type PLACE_ORDER) (at_height h place)
      ++ map (with_type MATCH_ORDER) (at_height h mtch)
      ++ map (with_type CANCEL_ORDER) (at_height h cancel) /\
  (events_by_height !! h = None <->
     at_height h place = [] /\ at_height h mtch = [] /\ at_height h cancel = []).
Proof.
  cbv zeta. split.
  - rewrite !organize_lookup, lookup_empty. cbn [default from_option app id]. by rewrite <- ?app_assoc.
  - rewrite !organize_None, lookup_empty. tauto.
Qed.



(* ===================================================================== *)
(** * Further properties: a height *)
(* ===================================================================== *)

(** The filter of an update that a handler queues names an order. *)
Definition names_order (u : QueuedUpdate) : Prop :=
  exists id rest, q_filter u = ("orderId", id) :: rest.

(** What the handlers of a height may change besides the log, the clock
    and the failure schedule: the queues, which grow. *)
Definition queues_grow (w w' : World) : Prop :=
  orders_collection w' = orders_collection w /\
  trades_collection w' = trades_collection w /\
  journal w' = journal w /\
  exists us, order_updates w' = order_updates w ++ us /\ Forall names_order us.

Lemma queues_grow_refl w : queues_grow w w.
Proof. repeat split. exists []. by rewrite app_nil_r. Qed.

Lemma queues_grow_trans w1 w2 w3 :
  queues_grow w1 w2 -> queues_grow w2 w3 -> queues_grow w1 w3.
Proof.
  intros (Ho1 & Ht1 & Hj1 & us1 & Hu1 & Hn1) (Ho2 & Ht2 & Hj2 & us2 & Hu2 & Hn2).
  split; [congruence|]. split; [congruence|]. split; [congruence|].
  exists (us1 ++ us2). split; [by rewrite Hu2, Hu1, <- app_assoc|by apply Forall_app].
Qed.

Ltac grows_by us :=
  eexists; (split; [reflexivity|]); do 3 (split; [reflexivity|]);
  exists us; cbn [order_updates];
  (split; [first [reflexivity | symmetry; apply app_nil_r]|]);
  repeat constructor; eexists _, _; reflexivity.

Ltac grows := first [grows_by (@nil QueuedUpdate) | eexists; (split; [reflexivity|]);
  do 3 (split; [reflexivity|]); eexists [_]; (split; [reflexivity|]);
  repeat constructor; eexists _, _; reflexivity].

Section Height.
Context {I : PyInterp}.

Lemma process_place_grows w params h bt tx :
  exists w', process_place_order_event params h bt tx w = (Ok tt, w') /\ queues_grow w w'.
Proof.
  destruct w as [orders trades pe me ce ou ti fs clk jr lg].
  unfold process_place_order_event. run_M.
  destruct (place_order_update params h bt tx) as [u|e] eqn:Hu; [|grows].
  destruct (place_order_update_shape _ _ _ _ _ Hu)
    as (v0 & v1 & v2 & v3 & v6 & v7 & a & p & d & data & _ & _ & _ & _ & _ & _ & _ & _ & _
        & -> & _).
  grows.
Qed.

Lemma process_match_grows w params h bt tx :
  exists w', process_match_order_event params h bt tx w = (Ok tt, w') /\ queues_grow w w'.
Proof.
  destruct w as [orders trades pe me ce ou ti fs clk jr lg].
  unfold process_match_order_event. run_M.
  destruct (match_params params) as [p|e]; [|grows].
  destruct fs as [|[] fs]; try grows.
  - destruct (find _ orders) as [o|]; [|grows].
    destruct (match_order_update _ _ _ _); grows.
  - destruct (find _ orders) as [o|]; [|grows].
    destruct (match_order_update _ _ _ _); grows.
Qed.

Lemma process_cancel_grows w params h bt tx :
  exists w', process_cancel_order_event params h bt tx w = (Ok tt, w') /\ queues_grow w w'.
Proof.
  destruct w as [orders trades pe me ce ou ti fs clk jr lg].
  unfold process_cancel_order_event. run_M.
  destruct (cancel_params params) as [p|e]; [|grows].
  destruct fs as [|[] fs]; try grows.
  - destruct (find _ orders) as [o|]; [|grows].
    destruct (ne_str _ _); [grows|].
    destruct (py_bool bt); [|destruct clk]; grows.
  - destruct (find _ orders) as [o|]; [|grows].
    destruct (ne_str _ _); [grows|].
    destruct (py_bool bt); [|destruct clk]; grows.
Qed.

Lemma logger_grows entry w : queues_grow w (set_log (fun l => l ++ [entry]) w).
Proof. repeat split. exists []. cbn. by rewrite app_nil_r. Qed.

(** One event of a height: it is handled without a write, or its
    validator lets an OverflowError through. *)
Lemma process_event_grows h ev w :
  (exists w', process_event h ev w = (Ok tt, w') /\ queues_grow w w') \/
  process_event h ev w = (Raise OverflowError, w).
Proof.
  unfold process_event. destruct (ev_type ev) as [[| |]|].
  - rewrite M_bind_eq. unfold lift.
    destruct (validate_place_verdict (default (PList []) (ev_params ev)))
      as [->|[(why & -> & _)| ->]]; [left|left|by right].
    + apply process_place_grows.
    + eexists. split; [reflexivity|]. apply logger_grows.
  - rewrite M_bind_eq. unfold lift.
    destruct (validate_match_verdict (default (PList []) (ev_params ev)))
      as [->|[(why & -> & _)| ->]]; [left|left|by right].
    + apply process_match_grows.
    + eexists. split; [reflexivity|]. apply logger_grows.
  - rewrite M_bind_eq. unfold lift.
    destruct (validate_cancel_verdict (default (PList []) (ev_params ev)))
      as [->|[(why & -> & _)| ->]]; [left|left|by right].
    + apply process_cancel_grows.
    + eexists. split; [reflexivity|]. apply logger_grows.
  - left. exists w. split; [reflexivity|apply queues_grow_refl].
Qed.

Lemma process_events_grow h events w :
  exists r w', for_each (process_event h) events w = (r, w') /\
    queues_grow w w' /\ (r = Ok tt \/ r = Raise OverflowError).
Proof.
  revert w. induction events as [|ev events IH]; intros w.
  - exists (Ok tt), w. split; [reflexivity|]. split; [apply queues_grow_refl|by left].
  - cbn [for_each]. rewrite M_bind_eq.
    destruct (process_event_grows h ev w) as [(w1 & -> & Hg1)| ->].
    + destruct (IH w1) as (r & w2 & -> & Hg2 & Hr). exists r, w2.
      split; [done|]. split; [by eapply queues_grow_trans|done].
    + exists (Raise OverflowError), w. split; [done|].
      split; [apply queues_grow_refl|by right].
Qed.


(** The commit: both stages went through, or one call failed. *)
Lemma execute_batch_updates_cases w :
  (exists w', execute_batch_updates w = (Ok tt, w') /\
     order_updates w' = [] /\ trade_inserts w' = [] /\
     journal w' = journal w ++ map (fun u => (update_call u, true)) (order_updates w)
                    ++ insert_call (trade_inserts w)) \/
  (exists w' us1 c, execute_batch_updates w = (Raise PyMongoError, w') /\
     us1 `prefix_of` order_updates w /\
     journal w' = journal w ++ map (fun u => (update_call u, true)) us1 ++ [(c, false)] /\
     (c = CallInsertMany (trade_inserts w) \/
      exists u, u ∈ order_updates w /\ c = update_call u)).
Proof.
  rewrite execute_batch_updates_stages. unfold try_except. rewrite M_bind_eq.
  destruct (send_order_updates_cases w)
    as [(w1 & -> & Hou & Hti & Htr & Hj1 & l1 & Hl1)
       |(w1 & us1 & u & us2 & -> & Hus & (Hq1 & Hq2 & Hq3) & Hj & l & Hl)].
  - destruct (send_trade_inserts_cases w1)
      as [(w2 & -> & Hou2 & Hti2 & Hj2 & _)|(w2 & -> & (Hq1 & Hq2 & Hq3) & Hj2 & Hl2)].
    + left. eexists. split; [reflexivity|]. split; [congruence|]. split; [done|].
      by rewrite Hj2, Hj1, Hti, <- app_assoc.
    + right. cbv beta iota. rewrite log_and_raise.
      eexists _, (order_updates w), _. split; [reflexivity|]. split; [done|].
      cbn [set_log journal]. split; [by rewrite Hj2, Hj1, <- app_assoc|].
      left. by rewrite Hti.
  - right. cbv beta iota. rewrite log_and_raise.
    eexists _, us1, _. split; [reflexivity|].
    split; [rewrite Hus; by apply prefix_app_r|]. cbn [set_log journal].
    split; [exact Hj|]. right. exists u. split; [|done].
    rewrite Hus. apply elem_of_app. right. apply elem_of_cons. by left.
Qed.

Lemma update_last_processed_height_cases h w :
  exists w' b,
    update_last_processed_height h w = (Ok tt, w') /\
    journal w' = journal w ++ [(watermark_call h, b)] /\
    order_updates w' = order_updates w /\
    trade_inserts w' = trade_inserts w /\
    trades_collection w' = trades_collection w.
Proof.
  destruct w as [orders trades pe me ce ou ti fs clk jr lg].
  unfold update_last_processed_height.
  destruct fs as [|[|] fs]; run_M; eexists _, _; (split; [reflexivity|]); by repeat split.
Qed.

Lemma names_order_not_watermark u h :
  names_order u -> update_call u <> watermark_call h.
Proof. intros (id & rest & Hu). unfold update_call, watermark_call. rewrite Hu. discriminate. Qed.

(** A journal that holds no write of the watermark. *)
Definition no_watermark_call (j : list (StoreCall * bool)) : Prop :=
  Forall (fun cb => forall h, cb.1 <> watermark_call h) j.


(** X22. When the processing of a height raises, the watermark has not
    been written: the calls of the height hold no write of the watermark.
    It raises either before any call, on an OverflowError that a validator
    lets through, or on the failure of a call of the commit, which is then
    the last call. *)
Theorem failed_height_writes_no_watermark events_by_height h w w' e :
  order_updates w = [] ->
  process_height events_by_height h w = (Raise e, w') ->
  exists j,
    journal w' = journal w ++ j /\
    no_watermark_call j /\
    ((e = OverflowError /\ j = []) \/
     (e = PyMongoError /\ exists j0 c, j = j0 ++ [(c, false)])).
Proof.
  intros Hempty. unfold process_height. rewrite M_bind_eq.
  destruct (process_events_grow h (sort_events (default [] (events_by_height !! h))) w)
    as (r & w1 & -> & (_ & _ & Hj1 & us & Hus & Hnames) & [-> | ->]).
  - rewrite M_bind_eq. rewrite Hempty in Hus. cbn [app] in Hus.
    destruct (execute_batch_updates_cases w1)
      as [(w2 & -> & Hou & Hti & Hj2)|(w2 & us1 & c & -> & Hpre & Hj2 & Hc)].
    + destruct (update_last_processed_height_cases h w2) as (w3 & b & -> & _). done.
    + intros [= <- <-]. eexists. split; [by rewrite Hj2, Hj1|]. split.
      * apply Forall_app. split.
        -- apply Forall_fmap, Forall_forall. intros u Hu h'. cbn.
           apply names_order_not_watermark.
           apply (proj1 (Forall_forall _ _) Hnames).
           rewrite <- Hus. destruct Hpre as [k ->]. apply elem_of_app. by left.
        -- apply Forall_singleton. intros h'. cbn.
           destruct Hc as [->|(u & Hu & ->)]; [discriminate|].
           apply names_order_not_watermark. apply (proj1 (Forall_forall _ _) Hnames).
           by rewrite <- Hus.
      * right. split; [done|]. by eexists _, _.
  - intros [= <- <-]. exists []. split; [by rewrite Hj1, app_nil_r|].
    split; [constructor|]. by left.
Qed.


(** The validator and the committed handler of each type of event. *)
Definition validator (t : EventType) : PyVal -> res Verdict :=
  match t with
  | PLACE_ORDER => validate_place_order_params
  | MATCH_ORDER => validate_match_order_params
  | CANCEL_ORDER => validate_cancel_order_params
  end.

Definition apply_event (t : EventType) : PyVal -> Z -> PyVal -> PyVal -> M unit :=
  match t with
  | PLACE_ORDER => apply_place
  | MATCH_ORDER => apply_match
  | CANCEL_ORDER => apply_cancel
  end.

Lemma bind_ret_then {A} (m : M unit) (k : M A) w :
  ((m ≫= fun _ => mret tt) ≫= fun _ => k) w = (m ≫= fun _ => k) w.
Proof. rewrite !M_bind_eq. by destruct (m w) as [[[]|e] w1]. Qed.

Lemma bind_assoc_then {A} (m1 m2 : M unit) (k : M A) w :
  ((m1 ≫= fun _ => m2) ≫= fun _ => k) w = (m1 ≫= fun _ => m2 ≫= fun _ => k) w.
Proof. rewrite !M_bind_eq. by destruct (m1 w) as [[[]|e] w1]. Qed.

(** X23. A height that holds one event, accepted by its validator, is
    processed as: the handler of the event, the commit, the write of the
    watermark. *)
Theorem height_of_one_event events_by_height h ev t w :
  events_by_height !! h = Some [ev] ->
  ev_type ev = Some t ->
  validator t (default (PList []) (ev_params ev)) = Ok Valid ->
  process_height events_by_height h w =
    (apply_event t (default (PList []) (ev_params ev)) h
       (default PNone (ev_blockTime ev)) (default PNone (ev_txId ev));;
     update_last_processed_height h) w.
Proof.
  intros Hm Ht Hvalid. unfold process_height. rewrite Hm.
  cbn [default from_option id sort_events stable_sort foldr insert_sorted for_each].
  unfold sort_events, stable_sort. cbn [foldr insert_sorted for_each].
  rewrite bind_ret_then. unfold process_event. rewrite Ht.
  destruct t; cbn [validator apply_event] in *; rewrite M_bind_eq; unfold lift;
    rewrite Hvalid; cbv beta iota;
    unfold apply_place, apply_match, apply_cancel; by rewrite bind_assoc_then.
Qed.

End Height.

(** ** Examples for a height *)

Definition place_o1_event : RawEvent :=
  {| ev_height := Some 10%Z; ev_params := Some place_o1; ev_blockTime := None;
     ev_txId := Some (PStr "tx1"); ev_type := Some PLACE_ORDER |}.

Definition height_10 : gmap Z (list RawEvent) := {[ 10%Z := [place_o1_event] ]}.


Definition world_failed_10 : World :=
  (process_height (I := example_interp) height_10 10
     (set_faults (fun _ => [true]) empty_world)).2.


Lemma height_10_raises :
  process_height (I := example_interp) height_10 10
    (set_faults (fun _ => [true]) empty_world) = (Raise PyMongoError, world_failed_10).
Proof. vm_refl. Qed.


Lemma failed_height_writes_no_watermark_witness :
  order_updates (set_faults (fun _ => [true]) empty_world) = [] /\
  process_height (I := example_interp) height_10 10
    (set_faults (fun _ => [true]) empty_world) = (Raise PyMongoError, world_failed_10) /\
  exists j,
    journal world_failed_10 = journal (set_faults (fun _ => [true]) empty_world) ++ j /\
    no_watermark_call j.
Proof.
  split; [reflexivity|]. split; [exact height_10_raises|].
  destruct (failed_height_writes_no_watermark (I := example_interp) height_10 10
              (set_faults (fun _ => [true]) empty_world) world_failed_10 PyMongoError
              eq_refl height_10_raises) as (j & Hj & Hno & _).
  exists j. split; assumption.
Defined.

Lemma height_of_one_event_witness :
  height_10 !! 10%Z = Some [place_o1_event] /\
  process_height (I := example_interp) height_10 10 empty_world =
    (apply_place (I := example_interp) place_o1 10 PNone (PStr "tx1");;
     update_last_processed_height 10) empty_world.
Proof.
  split; [reflexivity|].
  exact (height_of_one_event (I := example_interp) height_10 10 place_o1_event PLACE_ORDER
           empty_world eq_refl eq_refl place_o1_valid).
Defined.

(* ===================================================================== *)
(** * Further properties: fetching the events *)
(* ===================================================================== *)

Lemma insert_sorted_Permutation {A K} (le : K -> K -> bool) (key : A -> K) x l :
  insert_sorted le key x l ≡ₚ x :: l.
Proof.
  induction l as [|y l IH]; [done|]. cbn.
  destruct (le (key x) (key y)); [done|]. rewrite IH. apply Permutation_swap.
Qed.

Lemma stable_sort_Permutation {A K} (le : K -> K -> bool) (key : A -> K) l :
  stable_sort le key l ≡ₚ l.
Proof.
  induction l as [|x l IH]; [done|]. unfold stable_sort in *. cbn [foldr].
  by rewrite insert_sorted_Permutation, IH.
Qed.

Section Sorted.
Context {A K : Type} (le : K -> K -> bool) (key : A -> K).
Hypothesis le_total : forall a b, le a b = false -> le b a = true.
Hypothesis le_trans : forall a b c, le a b = true -> le b c = true -> le a c = true.

Lemma insert_sorted_StronglySorted x l :
  StronglySorted (fun a b => le (key a) (key b) = true) l ->
  StronglySorted (fun a b => le (key a) (key b) = true) (insert_sorted le key x l).
Proof.
  induction l as [|y l IH]; intros Hs; [repeat constructor|]. cbn.
  pose proof Hs as Hs'. apply StronglySorted_inv in Hs' as [Hl Hy].
  destruct (le (key x) (key y)) eqn:Hxy.
  - constructor; [done|]. constructor; [done|].
    eapply Forall_impl; [exact Hy|]. cbn. intros z Hz. by eapply le_trans.
  - constructor; [by apply IH|].
    rewrite insert_sorted_Permutation. constructor; [by apply le_total|done].
Qed.

Lemma stable_sort_StronglySorted l :
  StronglySorted (fun a b => le (key a) (key b) = true) (stable_sort le key l).
Proof.
  induction l as [|x l IH]; [constructor|]. unfold stable_sort in *. cbn [foldr].
  by apply insert_sorted_StronglySorted.
Qed.
End Sorted.

Lemma height_le_total a b : height_le a b = false -> height_le b a = true.
Proof. destruct a, b; cbn; try done. intros H. apply Z.leb_gt in H. apply Z.leb_le. lia. Qed.

Lemma height_le_trans a b c :
  height_le a b = true -> height_le b c = true -> height_le a c = true.
Proof.
  destruct a, b, c; cbn; try done. intros H1 H2.
  apply Z.leb_le in H1, H2. apply Z.leb_le. lia.
Qed.

(** The value of one query of [fetch_events]. *)
Definition newer (bound : PyVal) (events : list RawEvent) : list RawEvent :=
  stable_sort height_le ev_height
    (List.filter (fun ev => height_gt bound (ev_height ev)) events).

(** An event with an integer height above [b]. *)
Definition is_newer (b : Z) (ev : RawEvent) : bool :=
  match ev_height ev with
  | Some h => (b <? h)%Z
  | None => false
  end.

(** By ascending height. *)
Definition by_height (events : list RawEvent) : Prop :=
  StronglySorted (fun a b => forall x y, ev_height a = Some x -> ev_height b = Some y ->
                                         (x <= y)%Z) events.

Lemma newer_Permutation b events :
  newer (PInt b) events ≡ₚ List.filter (is_newer b) events.
Proof.
  unfold newer. rewrite stable_sort_Permutation.
  induction events as [|ev events IH]; [done|]. cbn [List.filter].
  unfold is_newer at 1, height_gt at 1. destruct (ev_height ev) as [h|].
  - destruct (b <? h)%Z; by rewrite IH.
  - done.
Qed.

Lemma StronglySorted_weaken {A} (R S : A -> A -> Prop) l :
  (forall a b, R a b -> S a b) -> StronglySorted R l -> StronglySorted S l.
Proof.
  intros HRS. induction 1 as [|x l Hl IH Hx]; constructor; [done|].
  eapply Forall_impl; [exact Hx|]. cbn. auto.
Qed.

Lemma newer_by_height bound events : by_height (newer bound events).
Proof.
  unfold by_height, newer.
  eapply StronglySorted_weaken;
    [|apply (stable_sort_StronglySorted height_le ev_height height_le_total height_le_trans)].
  cbn. intros a b Hab x y Ha Hb. rewrite Ha, Hb in Hab. by apply Z.leb_le.
Qed.

Definition complete_fetch (bound : PyVal) (w : World) : Events :=
  {| place_orders := newer bound (place_order_events w);
     match_orders := newer bound (match_order_events w);
     cancel_orders := newer bound (cancel_order_events w) |}.

(** What [fetch_events] returns, by the query that fails. *)
Definition fetched (bound : PyVal) (w : World) (failing : option nat) : Events :=
  match failing with
  | None => complete_fetch bound w
  | Some 0 => {| place_orders := []; match_orders := []; cancel_orders := [] |}
  | Some 1 => {| place_orders := newer bound (place_order_events w);
                 match_orders := []; cancel_orders := [] |}
  | Some _ => {| place_orders := newer bound (place_order_events w);
                 match_orders := newer bound (match_order_events w);
                 cancel_orders := [] |}
  end.

(** The first of the three queries that the failure schedule fails. *)
Definition failing_query (fs : list bool) : option nat :=
  match fs with
  | true :: _ => Some 0
  | false :: true :: _ => Some 1
  | false :: false :: true :: _ => Some 2
  | _ => None
  end.

(** What reading from the store leaves alone. *)
Definition no_write (w w' : World) : Prop :=
  orders_collection w' = orders_collection w /\
  trades_collection w' = trades_collection w /\
  place_order_events w' = place_order_events w /\
  match_order_events w' = match_order_events w /\
  cancel_order_events w' = cancel_order_events w /\
  order_updates w' = order_updates w /\
  trade_inserts w' = trade_inserts w /\
  journal w' = journal w.

Lemma fetch_events_cases bound w :
  exists w',
    fetch_events bound w = (Ok (fetched bound w (failing_query (faults w))), w') /\
    no_write w w' /\
    log w' = log w ++ match failing_query (faults w) with
                      | Some _ => [ErrFetch PyMongoError]
                      | None => []
                      end.
Proof.
  destruct w as [orders trades pe me ce ou ti fs clk jr lg].
  unfold fetch_events, find_events. cbn [faults].
  destruct fs as [|[|] [|[|] [|[|] fs]]]; run_M; cbn [failing_query fetched];
    eexists; (split; [reflexivity|]); (split; [by repeat split|]);
    cbn [log]; first [reflexivity | symmetry; apply app_nil_r].
Qed.

(** X24. Without a store failure [fetch_events] returns, for each of the
    three collections, exactly the events with a height above the
    watermark, by ascending height. *)
Theorem fetch_events_returns_newer_events w b :
  faults w = [] ->
  exists events,
    fetch_events (PInt b) w = (Ok events, w) /\
    place_orders events ≡ₚ List.filter (is_newer b) (place_order_events w) /\
    match_orders events ≡ₚ List.filter (is_newer b) (match_order_events w) /\
    cancel_orders events ≡ₚ List.filter (is_newer b) (cancel_order_events w) /\
    by_height (place_orders events) /\
    by_height (match_orders events) /\
    by_height (cancel_orders events).
Proof.
  intros Hf. exists (complete_fetch (PInt b) w). split.
  - destruct w as [orders trades pe me ce ou ti fs clk jr lg].
    cbn [faults] in Hf; subst. reflexivity.
  - cbn [complete_fetch place_orders match_orders cancel_orders].
    repeat split; first [apply newer_Permutation | apply newer_by_height].
Qed.

(** X25. [fetch_events] never raises and writes nothing. When one of its
    three queries fails, it logs the error and returns the lists fetched
    before the failure, with the others empty: an incomplete fetch is not
    told apart from a complete one by the caller. *)
Theorem fetch_events_partial_on_failure bound w :
  exists w',
    fetch_events bound w = (Ok (fetched bound w (failing_query (faults w))), w') /\
    orders_collection w' = orders_collection w /\
    trades_collection w' = trades_collection w /\
    journal w' = journal w /\
    log w' = log w ++ match failing_query (faults w) with
                      | Some _ => [ErrFetch PyMongoError]
                      | None => []
                      end.
Proof.
  destruct (fetch_events_cases bound w) as (w' & Hrun & (Ho & Ht & _ & _ & _ & _ & _ & Hj) & Hl).
  by exists w'.
Qed.

Definition world_with_events : World :=
  {| orders_collection := []; trades_collection := [];
     place_order_events :=
       [place_o1_event;
        {| ev_height := Some 3%Z; ev_params := Some place_o1; ev_blockTime := None;
           ev_txId := None; ev_type := None |}];
     match_order_events := []; cancel_order_events := [];
     order_updates := []; trade_inserts := [];
     faults := []; clock := []; journal := []; log := [] |}.

Lemma fetch_events_returns_newer_events_witness :
  faults world_with_events = [] /\
  exists events,
    fetch_events (PInt 5) world_with_events = (Ok events, world_with_events) /\
    place_orders events ≡ₚ [place_o1_event] /\
    by_height (place_orders events).
Proof.
  split; [reflexivity|].
  destruct (fetch_events_returns_newer_events world_with_events 5 eq_refl)
    as (events & Hrun & Hplace & _ & _ & Hsorted & _).
  exists events. split; [assumption|]. split; assumption.
Defined.

(* ===================================================================== *)
(** * Further properties: a run *)
(* ===================================================================== *)














Section Run.
Context {I : PyInterp}.



End Run.


(* ===================================================================== *)
(** * Further properties: replaying a MATCH *)
(* ===================================================================== *)

Section Replay.
Context {I : PyInterp}.

(** The accumulators of an order after a MATCH. *)
Lemma accumulators_after_match o p ts h upd filled original fill_value dollar_total fee_total n :
  accumulators o filled original fill_value dollar_total fee_total n ->
  match_order_update o p ts h = Ok upd ->
  accumulators (upd ∪ o)
    (filled + m_matched_amount p) original
    (fill_value + m_matched_amount p * m_matched_price p)
    (dollar_total + m_dollar_value p) (fee_total + m_fee p) (n + 1).
Proof.
  intros Hacc Hupd.
  destruct (match_order_update_fields o p ts h _ _ _ _ _ _ Hacc)
    as (upd' & Hupd' & Hf & Hv & _ & Hd & Hfe & _ & _ & _ & Hn & _ & Ho & _).
  assert (upd' = upd) as -> by congruence.
  destruct Hacc as (_ & Horig & _).
  unfold accumulators. repeat split;
    try (apply get_Some; by apply lookup_union_Some_l).
  unfold get in *. by rewrite lookup_union_r.
Qed.

(** X27. A MATCH is not idempotent: committing the same MATCH event again
    (as a run does after a watermark that was not advanced) adds its fill
    a second time and records its trade a second time. *)
Theorem match_replay_fills_again w params h bt tx p o
    filled original fill_value dollar_total fee_total fills :
  quiet w ->
  match_params params = Ok p ->
  the_order w (m_order_id p) = Some o ->
  accumulators o filled original fill_value dollar_total fee_total fills ->
  exists w1 w2 o2 t,
    apply_match params h bt tx w = (Ok tt, w1) /\
    apply_match params h bt tx w1 = (Ok tt, w2) /\
    the_order w2 (m_order_id p) = Some o2 /\
    o2 !! "filledAmount" =
      Some (PFloat (filled + m_matched_amount p + m_matched_amount p)%float) /\
    o2 !! "totalFees" = Some (PFloat (fee_total + m_fee p + m_fee p)%float) /\
    o2 !! "numberOfFills" = Some (PInt (fills + 1 + 1)) /\
    trades_collection w2 = trades_collection w ++ [t; t].
Proof.
  intros Hq Hp Ho Hacc.
  set (ts := extract_timestamp (m_order_time p)).
  destruct (match_order_update_fields o p ts h _ _ _ _ _ _ Hacc)
    as (upd1 & Hupd1 & _ & _ & _ & _ & _ & _ & _ & _ & _ & Hid1 & _).
  destruct (apply_match_quiet w params h bt tx p o upd1 Hq Hp Ho Hupd1 Hid1)
    as (w1 & Hrun1 & Hq1 & Ho1 & Ht1 & _).
  pose proof (accumulators_after_match _ _ _ _ _ _ _ _ _ _ _ Hacc Hupd1) as Hacc1.
  destruct (match_order_update_fields (upd1 ∪ o) p ts h _ _ _ _ _ _ Hacc1)
    as (upd2 & Hupd2 & Hfilled & _ & _ & _ & Hfees & _ & _ & _ & Hfills & Hid2 & _).
  destruct (apply_match_quiet w1 params h bt tx p _ upd2 Hq1 Hp Ho1 Hupd2 Hid2)
    as (w2 & Hrun2 & _ & Ho2 & Ht2 & _).
  exists w1, w2, (upd2 ∪ (upd1 ∪ o)), (trade_data p ts h bt tx).
  split; [done|]. split; [done|]. split; [done|].
  repeat (split; [by apply lookup_union_Some_l|]).
  by rewrite Ht2, Ht1, <- app_assoc.
Qed.

End Replay.

Lemma match_replay_fills_again_witness :
  quiet world_o1 /\
  exists w1 w2 o2 t,
    apply_match (I := example_interp) match_o1 11 PNone (PStr "tx2") world_o1 = (Ok tt, w1) /\
    apply_match (I := example_interp) match_o1 11 PNone (PStr "tx2") w1 = (Ok tt, w2) /\
    the_order w2 "o1" = Some o2 /\
    o2 !! "filledAmount" = Some (PFloat (0 + 40 + 40)%float) /\
    o2 !! "numberOfFills" = Some (PInt 2) /\
    trades_collection w2 = trades_collection world_o1 ++ [t; t].
Proof.
  split; [exact world_o1_quiet|].
  destruct (match_replay_fills_again (I := example_interp) world_o1 match_o1 11 PNone
              (PStr "tx2") match_o1_params order_o1 _ _ _ _ _ _
              world_o1_quiet match_o1_parses world_o1_order order_o1_accumulators)
    as (w1 & w2 & o2 & t & Hrun1 & Hrun2 & Ho2 & Hfilled & _ & Hfills & Ht).
  exists w1, w2, o2, t. repeat (split; [assumption|]). assumption.
Defined.

(* ===================================================================== *)
(** * Further properties: utils.py *)
(* ===================================================================== *)

Lemma replace_char_absent old new s :
  old <> new -> ~ In old (list_ascii_of_string (replace_char old new s)).
Proof.
  intros Hne. induction s as [|c s IH]; cbn; [tauto|].
  intros [H|H]; [|tauto].
  destruct (Ascii.eqb_spec c old); congruence.
Qed.

Lemma replace_char_idem old new s :
  old <> new -> replace_char old new (replace_char old new s) = replace_char old new s.
Proof.
  intros Hne. induction s as [|c s IH]; cbn; [done|]. rewrite IH. f_equal.
  destruct (Ascii.eqb_spec c old) as [->|Hc].
  - assert (new <> old) as Hno by congruence. by apply Ascii.eqb_neq in Hno as ->.
  - by apply Ascii.eqb_neq in Hc as ->.
Qed.

(** X28. [normalize_pair] leaves no '/' in a string, keeps its length,
    changes nothing when applied again, and returns a value that is not a
    string as it is. *)
Theorem normalize_pair_removes_slashes (pair : PyVal) :
  normalize_pair (normalize_pair pair) = normalize_pair pair /\
  (forall s, pair = PStr s ->
     exists s', normalize_pair pair = PStr s' /\
                ~ In "/"%char (list_ascii_of_string s') /\
                String.length s' = String.length s) /\
  ((forall s, pair <> PStr s) -> normalize_pair pair = pair).
Proof.
  split; [|split].
  - destruct pair; try reflexivity. cbn. by rewrite replace_char_idem.
  - intros s ->. eexists. split; [reflexivity|]. split.
    + by apply replace_char_absent.
    + induction s as [|c s IH]; cbn; [done|]. by rewrite IH.
  - intros Hns. destruct pair; try reflexivity. by destruct (Hns s).
Qed.
